(** * AggregationSelect: the aggregation selector of an insight

    A shallow embedding of
    [frontend/src/scenes/insights/filters/AggregationSelect.tsx]:
    the two mapping functions [getHogQLValue] and [hogQLToFilterValue],
    the two wrappers that bind them to a store, and the option list of
    the shared select component. *)

From Stdlib Require Import ZArith Ascii String Decimal DecimalString DecimalPos DecimalZ Lia.
From stdpp Require Import base option strings gmap.

Local Open Scope Z_scope.

(** ** Text

    A JavaScript string is modelled by [string]; the code only inspects
    ASCII characters. *)

Module Text.

Definition code (c : ascii) : Z := Z.of_nat (nat_of_ascii c).

(** The character class [[0-9]]. *)
Definition is_digit (c : ascii) : bool := (48 <=? code c) && (code c <=? 57).

Fixpoint all_digits (s : string) : bool :=
  match s with
  | EmptyString => true
  | String c s' => is_digit c && all_digits s'
  end.

(** [strip_prefix p s] is the rest of [s] after the prefix [p], when [s]
    starts with [p]. *)
Fixpoint strip_prefix (p s : string) : option string :=
  match p, s with
  | EmptyString, _ => Some s
  | String a p', String b s' => if Ascii.eqb a b then strip_prefix p' s' else None
  | String _ _, EmptyString => None
  end.

(** [String.prototype.replace] with a string pattern: the first occurrence
    of [pat] in [s] is replaced by [rep] (which holds no [$] here), and
    [s] is returned as it is when [pat] does not occur. *)
Fixpoint replace (pat rep s : string) : string :=
  match strip_prefix pat s with
  | Some rest => rep +:+ rest
  | None =>
      match s with
      | EmptyString => EmptyString
      | String c s' => String c (replace pat rep s')
      end
  end.

(** The integer a run of decimal digits denotes, read left to right. *)
Fixpoint decimal_from (acc : Z) (s : string) : Z :=
  match s with
  | EmptyString => acc
  | String c s' => decimal_from (10 * acc + (code c - 48)) s'
  end.

Definition decimal_value (s : string) : Z := decimal_from 0 s.

End Text.

(** ** Numbers

    A [number] of the code is a group type index or what [parseInt]
    returns: an integer that a double holds, [NaN] or an infinity
    (fractions are not modelled). [Int z] stands for a Number only when
    [z] is such an integer, which [is_number] says. *)

Inductive number :=
  | Int (z : Z)
  | NaN
  | Infinity
  | NegInfinity.

Definition MAX_SAFE_INTEGER : Z := 2 ^ 53 - 1.

(** The largest finite Number. *)
Definition MAX_VALUE : Z := (2 ^ 53 - 1) * 2 ^ 971.

Module Double.

(** The integer with at most 53 significant bits that is nearest to
    [z >= 0], the even one of two that are as near. *)
Definition round (z : Z) : Z :=
  let bits := Z.log2 z + 1 in
  if bits <=? 53 then z
  else
    let ulp := 2 ^ (bits - 53) in
    let q := z / ulp in
    let r := z mod ulp in
    let up := (ulp <? 2 * r) || ((2 * r =? ulp) && Z.odd q) in
    (if up then q + 1 else q) * ulp.

End Double.

(** The Number for a mathematical integer: the nearest double, an
    infinity beyond the largest one. *)
Definition to_number (z : Z) : number :=
  let v := Double.round (Z.abs z) in
  if MAX_VALUE <? v then (if z <? 0 then NegInfinity else Infinity)
  else Int (Z.sgn z * v).

Definition is_number (n : number) : Prop :=
  match n with
  | Int z => to_number z = Int z
  | _ => True
  end.

Module NumberText.

(** Plain decimal digits, with a sign for a negative integer. *)
Definition decimal (z : Z) : string := NilZero.string_of_int (Z.to_int z).

Definition digit_count (z : Z) : Z := Z.of_nat (String.length (decimal z)).

(** The integer with the fewest significant decimal digits that still
    denotes the double [z]: multiples of ever smaller powers of ten next
    to [z] are tried until one rounds to [z]; of two that do, the nearer
    one is taken, and the one with an even last digit when as near. *)
Fixpoint shortest_from (fuel : nat) (z scale : Z) : Z :=
  match fuel with
  | O => z
  | S fuel' =>
      let lo := z / scale * scale in
      let hi := lo + scale in
      let lo_ok := Double.round lo =? z in
      let hi_ok := Double.round hi =? z in
      if lo_ok && hi_ok then
        if z - lo <? hi - z then lo
        else if hi - z <? z - lo then hi
        else if Z.even (z / scale) then lo else hi
      else if lo_ok then lo
      else if hi_ok then hi
      else shortest_from fuel' z (scale / 10)
  end.

Definition shortest (z : Z) : Z :=
  let d := digit_count z in
  shortest_from (Z.to_nat d) z (10 ^ (d - 1)).

Fixpoint strip_zeros (fuel : nat) (v : Z) : Z :=
  match fuel with
  | O => v
  | S fuel' => if (0 <? v) && (v mod 10 =? 0) then strip_zeros fuel' (v / 10) else v
  end.

(** Exponent form: the significant digits, a point after the first one
    when there are more, and the decimal exponent. *)
Definition exponent_text (v : Z) : string :=
  let exponent := decimal (digit_count v - 1) in
  match decimal (strip_zeros (Z.to_nat (digit_count v)) v) with
  | String c EmptyString => String c ("e+" +:+ exponent)
  | String c rest => String c ("." +:+ rest +:+ "e+" +:+ exponent)
  | EmptyString => EmptyString
  end.

(** The text of a double [z >= 0]: plain digits for a safe integer;
    beyond, the fewest digits that denote it, followed by zeros up to 21
    digits and in exponent form from there on. *)
Definition positive_text (z : Z) : string :=
  if z <=? MAX_SAFE_INTEGER then decimal z
  else
    let v := shortest z in
    if digit_count v <=? 21 then decimal v else exponent_text v.

End NumberText.

(** The text of a number in a template literal or a [+] with a string. *)
Definition number_to_string (n : number) : string :=
  match n with
  | Int (Zneg p) => String "-" (NumberText.positive_text (Zpos p))
  | Int z => NumberText.positive_text z
  | NaN => "NaN"
  | Infinity => "Infinity"
  | NegInfinity => "-Infinity"
  end.

Module ParseInt.

(** White space and line terminators (the ASCII ones). *)
Definition is_space (c : ascii) : bool :=
  let n := Text.code c in ((9 <=? n) && (n <=? 13)) || (n =? 32).

Fixpoint trim_start (s : string) : string :=
  match s with
  | String c s' => if is_space c then trim_start s' else s
  | EmptyString => EmptyString
  end.

(** The value of [c] as a digit of the given radix. *)
Definition digit_of (radix : Z) (c : ascii) : option Z :=
  let n := Text.code c in
  let v := if (48 <=? n) && (n <=? 57) then Some (n - 48)
           else if (97 <=? n) && (n <=? 122) then Some (n - 87)
           else if (65 <=? n) && (n <=? 90) then Some (n - 55)
           else None in
  match v with
  | Some d => if d <? radix then Some d else None
  | None => None
  end.

(** The longest prefix of digits; [None] when there is no digit. *)
Fixpoint digits_prefix (radix : Z) (acc : option Z) (s : string) : option Z :=
  match s with
  | EmptyString => acc
  | String c s' =>
      match digit_of radix c with
      | Some d => digits_prefix radix (Some (radix * default 0 acc + d)) s'
      | None => acc
      end
  end.

(** A leading sign. *)
Definition sign_of (s : string) : bool * string :=
  match s with
  | String c s' =>
      if Ascii.eqb c "-" then (true, s')
      else if Ascii.eqb c "+" then (false, s')
      else (false, s)
  | EmptyString => (false, s)
  end.

(** Radix 16 after a prefix 0x or 0X, radix 10 otherwise. *)
Definition radix_of (s : string) : Z * string :=
  match s with
  | String c (String x s') =>
      if Ascii.eqb c "0" && (Ascii.eqb x "x" || Ascii.eqb x "X") then (16, s')
      else (10, s)
  | _ => (10, s)
  end.

(** [parseInt(s)] without a radix: the Number for the integer that the
    digits denote (correctly rounded, as engines do; the standard lets an
    implementation approximate past the twentieth digit). *)
Definition parseInt (s : string) : number :=
  let '(negative, s1) := sign_of (trim_start s) in
  let '(radix, s2) := radix_of s1 in
  match digits_prefix radix None s2 with
  | None => NaN
  | Some v => to_number (if negative then - v else v)
  end.

End ParseInt.

Export ParseInt (parseInt).

(** ** Values and objects

    An object is a finite map from property names to values; a property
    can be present and hold [undefined]. *)

#[warnings="-register-all"]
Inductive jsval :=
  | VUndefined
  | VNumber (n : number)
  | VString (s : string)
  | VObject (o : gmap string jsval).

Abbreviation object := (gmap string jsval).

(** [o.k], and what a destructuring [const { k } = o] binds. *)
Definition get (k : string) (o : object) : jsval := default VUndefined (o !! k).

(** An optional string as a value. *)
Definition of_string (s : option string) : jsval :=
  match s with Some s => VString s | None => VUndefined end.

(** Reading a property at its declared type [number | undefined] or
    [string | undefined]. *)
Definition as_number (v : jsval) : option number :=
  match v with VNumber n => Some n | _ => None end.

Definition as_string (v : jsval) : option string :=
  match v with VString s => Some s | _ => None end.

(** [{ ...o }] where [o] may be undefined: the properties of [o], or
    none. *)
Definition spread (v : jsval) : object :=
  match v with VObject o => o | _ => ∅ end.

(** ** Exceptions *)

Inductive error := TypeError.

Inductive result (A : Type) :=
  | Ok (a : A)
  | Throw (e : error).

Arguments Ok {A} a.
Arguments Throw {A} e.

#[global] Instance result_bind : MBind result := λ A B k r,
  match r with
  | Ok a => k a
  | Throw e => Throw e
  end.

(** A method call [v.m(...)] on a receiver that may be undefined. *)
Definition receiver (v : option string) : result string :=
  match v with
  | Some s => Ok s
  | None => Throw TypeError
  end.

(** ** The value codec (lines 22-40) *)

Definition UNIQUE_USERS : string := "person_id".

Definition getHogQLValue (groupIndex : option number) (aggregationQuery : option string)
  : string :=
  match groupIndex with
  | Some g => "$group_" +:+ number_to_string g
  | None =>
      match aggregationQuery with
      | Some q => if String.eqb q "" then UNIQUE_USERS else q
      | None => UNIQUE_USERS
      end
  end.

(** The regular expression [/^\$group_[0-9]+$/]. *)
Definition group_pattern (s : string) : bool :=
  match Text.strip_prefix "$group_" s with
  | Some ds => negb (String.eqb ds "") && Text.all_digits ds
  | None => false
  end.

(** [value?.match(/^\$group_[0-9]+$/)] as a condition: undefined (falsy)
    on an undefined receiver, null (falsy) without a match. *)
Definition optional_match (value : option string) : bool :=
  match value with
  | Some s => group_pattern s
  | None => false
  end.

Definition hogQLToFilterValue (value : option string) : result object :=
  if optional_match value then
    s ← receiver value;
    Ok {[ "groupIndex" := VNumber (parseInt (Text.replace "$group_" "" s)) ]}
  else if decide (value = Some "person_id") then
    Ok ∅
  else
    Ok {[ "aggregationQuery" := of_string value ]}.

(** ** The store and the component's properties

    A change handler runs to an exception or to the list of actions it
    dispatched to the store, in order. *)

Inductive action :=
  | updateQuerySource (query : object)
  | setFilters (filters : object).

Record AggregationSelectComponentProps (E : Type) := {
  className : option string;
  hogqlAvailable : option bool;
  value : option string;
  onChange : option string → result (list E);
}.

Arguments className {E} _.
Arguments hogqlAvailable {E} _.
Arguments value {E} _.
Arguments onChange {E} _ _.

(** [v?.k]: undefined when [v] is. *)
Definition optional_get (k : string) (v : jsval) : jsval :=
  match v with VObject o => get k o | _ => VUndefined end.

(** ** The binding wrappers (lines 42-110)

    The predicates that recognize a query node or a filter object come
    from other modules: they are parameters here. Each wrapper returns
    the element it renders, which is the component's properties. *)

Section Wrappers.

Variables isInsightQueryNode isFunnelsQuery isFunnelsFilter : object → bool.

Definition AggregationSelectDataExploration
    (querySource : object) (className : option string) (hogqlAvailable : option bool)
  : option (AggregationSelectComponentProps action) :=
  if negb (isInsightQueryNode querySource) then None
  else
    let value :=
      getHogQLValue
        (as_number (get "aggregation_group_type_index" querySource))
        (if isFunnelsQuery querySource
         then as_string (optional_get "funnel_aggregate_by_hogql"
                           (get "funnelsFilter" querySource))
         else None) in
    Some {|
      className := className;
      hogqlAvailable := hogqlAvailable;
      value := Some value;
      onChange := λ value,
        d ← hogQLToFilterValue value;
        let aggregationQuery := get "aggregationQuery" d in
        let groupIndex := get "groupIndex" d in
        if isFunnelsQuery querySource then
          Ok [updateQuerySource
                (<["funnelsFilter" :=
                     VObject (<["funnel_aggregate_by_hogql" := aggregationQuery]>
                                (spread (get "funnelsFilter" querySource)))]>
                   {[ "aggregation_group_type_index" := groupIndex ]})]
        else
          Ok [updateQuerySource {[ "aggregation_group_type_index" := groupIndex ]}]
    |}.

Definition AggregationSelect
    (filters : object) (className : option string) (hogqlAvailable : option bool)
  : AggregationSelectComponentProps action :=
  let value :=
    getHogQLValue
      (as_number (get "aggregation_group_type_index" filters))
      (if isFunnelsFilter filters
       then as_string (get "funnel_aggregate_by_hogql" filters)
       else None) in
  {|
    className := className;
    value := Some value;
    hogqlAvailable := hogqlAvailable;
    onChange := λ value,
      d ← hogQLToFilterValue value;
      let aggregationQuery := get "aggregationQuery" d in
      let groupIndex := get "groupIndex" d in
      if isFunnelsFilter filters then
        Ok [setFilters
              (<["funnel_aggregate_by_hogql" := aggregationQuery]>
                 (<["aggregation_group_type_index" := groupIndex]> filters))]
      else
        Ok [setFilters (<["aggregation_group_type_index" := groupIndex]> filters)]
  |}.

End Wrappers.

(** ** The select component (lines 112-201) *)

Module LemonSelect.

Inductive label :=
  | Plain (text : string)
  | Mono (text : option string).

(** The expression editor shown in the menu; its [onChange] is the
    [onSelect] of the select (the placeholder text is left out). *)
Record HogQLEditor := {
  editor_value : option string;
  disablePersonProperties : bool;
}.

Record leaf := {
  leaf_value : string;
  leaf_label : label;
  labelInMenu : option HogQLEditor;
}.

Inductive option_item :=
  | Leaf (l : leaf)
  | Group (group_label : string) (group_options : list leaf).

Record GroupIntroductionFooter := { needsUpgrade : bool }.

Record section := {
  title : string;
  options : list option_item;
  footer : option GroupIntroductionFooter;
}.

(** What the handler can be called with: the chosen value, null, or
    undefined. *)
Inductive selection :=
  | Null
  | Undefined
  | Chosen (newValue : string).

Record props (E : Type) := {
  className : option string;
  value : option string;
  onChange : selection → result (list E);
  data_attr : string;
  dropdownMatchSelectWidth : bool;
  select_options : list section;
}.

Arguments className {E} _.
Arguments value {E} _.
Arguments onChange {E} _ _.
Arguments data_attr {E} _.
Arguments dropdownMatchSelectWidth {E} _.
Arguments select_options {E} _.

End LemonSelect.

Record GroupType := { group_type_index : number }.

Record Noun := { singular : string; plural : string }.

(** The values read from [groupsModel] and [groupsAccessLogic]. *)
Record GroupsModel := {
  groupTypes : list GroupType;
  aggregationLabel : number → Noun;
}.

Record GroupsAccess := {
  needsUpgradeForGroups : bool;
  canStartUsingGroups : bool;
}.

Definition group_token (groupType : GroupType) : string :=
  "$group_" +:+ number_to_string (group_type_index groupType).

(** The two local variables the component fills in while it runs:
    [baseValues], and [optionSections], whose first section receives the
    options and the footer. *)
Record locals := {
  baseValues : list string;
  optionSections : list LemonSelect.section;
}.

(** [optionSections[0].options.push(item)] *)
Definition push_option (item : LemonSelect.option_item)
    (sections : list LemonSelect.section) : list LemonSelect.section :=
  alter (λ sec, {| LemonSelect.title := LemonSelect.title sec;
                   LemonSelect.options := LemonSelect.options sec ++ [item];
                   LemonSelect.footer := LemonSelect.footer sec |}) 0%nat sections.

(** [optionSections[0].footer = footer] *)
Definition set_footer (footer : LemonSelect.GroupIntroductionFooter)
    (sections : list LemonSelect.section) : list LemonSelect.section :=
  alter (λ sec, {| LemonSelect.title := LemonSelect.title sec;
                   LemonSelect.options := LemonSelect.options sec;
                   LemonSelect.footer := Some footer |}) 0%nat sections.

(** The value of the custom expression option (line 167):
    [!value || baseValues.includes(value) ? '' : value]. *)
Definition custom_value (baseValues : list string) (value : option string) : string :=
  match value with
  | None => ""
  | Some v => if String.eqb v "" || bool_decide (v ∈ baseValues) then "" else v
  end.

Definition custom_option (baseValues : list string) (value : option string)
  : LemonSelect.option_item :=
  LemonSelect.Group "Custom HogQL expression"
    [{| LemonSelect.leaf_value := custom_value baseValues value;
        LemonSelect.leaf_label := LemonSelect.Mono value;
        LemonSelect.labelInMenu := Some {|
          LemonSelect.editor_value := value;
          LemonSelect.disablePersonProperties := true |} |}].

Section Component.

Context {E : Type}.
Variables (model : GroupsModel) (access : GroupsAccess).

(** Lines 129-140. *)
Definition initial_locals : locals :=
  {| baseValues := [UNIQUE_USERS];
     optionSections :=
       [{| LemonSelect.title := "Event Aggregation";
           LemonSelect.options :=
             [LemonSelect.Leaf {|
                LemonSelect.leaf_value := UNIQUE_USERS;
                LemonSelect.leaf_label := LemonSelect.Plain "Unique users";
                LemonSelect.labelInMenu := None |}];
           LemonSelect.footer := None |}] |}.

(** The body of the [forEach] over the group types (lines 146-150). *)
Definition add_group_type (st : locals) (groupType : GroupType) : locals :=
  {| baseValues := baseValues st ++ [group_token groupType];
     optionSections :=
       push_option
         (LemonSelect.Leaf {|
            LemonSelect.leaf_value := group_token groupType;
            LemonSelect.leaf_label :=
              LemonSelect.Plain
                ("Unique "
                 +:+ plural (aggregationLabel model (group_type_index groupType)));
            LemonSelect.labelInMenu := None |})
         (optionSections st) |}.

(** Lines 142-152. *)
Definition add_groups (st : locals) : locals :=
  if needsUpgradeForGroups access || canStartUsingGroups access then
    {| baseValues := baseValues st;
       optionSections :=
         set_footer {| LemonSelect.needsUpgrade := needsUpgradeForGroups access |}
           (optionSections st) |}
  else foldl add_group_type st (groupTypes model).

(** Lines 154-160. *)
Definition add_sessions (hogqlAvailable : option bool) (st : locals) : locals :=
  if default false hogqlAvailable then
    {| baseValues := baseValues st ++ ["properties.$session_id"];
       optionSections :=
         push_option
           (LemonSelect.Leaf {|
              LemonSelect.leaf_value := "properties.$session_id";
              LemonSelect.leaf_label := LemonSelect.Plain "Unique sessions";
              LemonSelect.labelInMenu := None |})
           (optionSections st) |}
  else st.

(** Lines 161-185. *)
Definition add_custom (value : option string) (st : locals) : locals :=
  {| baseValues := baseValues st;
     optionSections :=
       push_option (custom_option (baseValues st) value) (optionSections st) |}.

Definition final_locals (hogqlAvailable : option bool) (value : option string) : locals :=
  add_custom value (add_sessions hogqlAvailable (add_groups initial_locals)).

Definition AggregationSelectComponent (p : AggregationSelectComponentProps E)
  : LemonSelect.props E :=
  {|
    LemonSelect.className := className p;
    LemonSelect.value := value p;
    LemonSelect.onChange := λ newValue,
      match newValue with
      | LemonSelect.Null => Ok []
      | LemonSelect.Undefined => onChange p None
      | LemonSelect.Chosen newValue => onChange p (Some newValue)
      end;
    LemonSelect.data_attr := "retention-aggregation-selector";
    LemonSelect.dropdownMatchSelectWidth := false;
    LemonSelect.select_options :=
      optionSections (final_locals (hogqlAvailable p) (value p))
  |}.

End Component.

(** ** What the specification calls a group selector

    A decimal digit is a character from "0" to "9", that is a code from 48
    to 57; [digits s] says that [s] is one or more digits. *)

Definition digit (c : ascii) : Prop := 48 <= Text.code c <= 57.

Inductive digits : string → Prop :=
  | digits_one c : digit c → digits (String c EmptyString)
  | digits_more c s : digit c → digits s → digits (String c s).

(** "$group_" followed by one or more digits. *)
Definition group_token_of (s : string) : Prop :=
  ∃ ds, s = "$group_" +:+ ds ∧ digits ds.

(** The descriptor the round trip is expected to return. *)
Definition expected_descriptor (g : option number) (q : option string) : object :=
  match g with
  | Some n => {[ "groupIndex" := VNumber n ]}
  | None =>
      match q with
      | Some s => if String.eqb s "" then ∅ else {[ "aggregationQuery" := VString s ]}
      | None => ∅
      end
  end.

(** Decoding a selector and encoding the fields of the result again. *)
Definition reencode (value : option string) : result string :=
  d ← hogQLToFilterValue value;
  Ok (getHogQLValue (as_number (get "groupIndex" d)) (as_string (get "aggregationQuery" d))).

(** A recognizer of funnel filters by their insight kind, to run the
    wrappers on concrete filters. *)
Definition insight_is_funnels (o : object) : bool :=
  match o !! "insight" with
  | Some (VString kind) => String.eqb kind "FUNNELS"
  | _ => false
  end.

(** A recognizer of query nodes by their kind, to run the wrappers on
    concrete query nodes. *)
Definition kind_is (name : string) (o : object) : bool :=
  match o !! "kind" with
  | Some (VString kind) => String.eqb kind name
  | _ => false
  end.

Definition trends_query : object := {[ "kind" := VString "TrendsQuery" ]}.

(** A trends filter that still holds a funnel aggregation expression. *)
Definition stale_filters : object :=
  <["funnel_aggregate_by_hogql" := VString "properties.$session_id"]>
    {[ "insight" := VString "TRENDS" ]}.

(** The fixed values the component offers: "person_id", the selector of
    each offered group type, and "properties.$session_id" when enabled. *)
Definition known_value (model : GroupsModel) (access : GroupsAccess)
    (hogqlAvailable : option bool) (s : string) : Prop :=
  s = "person_id"
  ∨ (needsUpgradeForGroups access = false ∧ canStartUsingGroups access = false
     ∧ ∃ groupType, groupType ∈ groupTypes model
                    ∧ s = "$group_" +:+ number_to_string (group_type_index groupType))
  ∨ (hogqlAvailable = Some true ∧ s = "properties.$session_id").

(** The component keeps one section, whose options it extends. *)
Definition one_section (st : locals) : Prop := ∃ sec, optionSections st = [sec].

(** The values of the plain options of a list, in order (the custom
    expression group is not one of them). *)
Definition fixed_values (items : list LemonSelect.option_item) : list string :=
  items ≫= λ item,
    match item with
    | LemonSelect.Leaf l => [LemonSelect.leaf_value l]
    | LemonSelect.Group _ _ => []
    end.

(** A funnel filter and a funnel query node, to run the wrappers on. *)
Definition funnel_filters : object :=
  <["funnel_window_interval" := VNumber (Int 14)]> {[ "insight" := VString "FUNNELS" ]}.

Definition funnels_query : object :=
  <["funnelsFilter" := VObject {[ "funnel_viz_type" := VString "steps" ]}]>
    {[ "kind" := VString "FunnelsQuery" ]}.

(** A group selector of 309 digits, whose index exceeds every finite
    Number. *)
Definition overflowing_selector : string :=
  "$group_999999999999999999999999999999999999999999999999999999999999999999999999999999999999999999999999999999999999999999999999999999999999999999999999999999999999999999999999999999999999999999999999999999999999999999999999999999999999999999999999999999999999999999999999999999999999999999999999999999999999999999999".

(** A select with one group type, to run the component on. *)
Definition one_group_model : GroupsModel :=
  {| groupTypes := [{| group_type_index := Int 0 |}];
     aggregationLabel := λ _, {| singular := "organization"; plural := "organizations" |} |}.

Definition groups_enabled : GroupsAccess :=
  {| needsUpgradeForGroups := false; canStartUsingGroups := false |}.

(** * Properties *)

(** ** Text *)

Lemma strip_prefix_app p s : Text.strip_prefix p (p +:+ s) = Some s.
Proof.
  induction p as [|a p IH]; simpl; [done|].
  by rewrite Ascii.eqb_refl.
Qed.

Lemma strip_prefix_Some p s r : Text.strip_prefix p s = Some r → s = p +:+ r.
Proof.
  revert s; induction p as [|a p IH]; intros s; simpl.
  - by intros [= ->].
  - destruct s as [|b s]; [done|].
    destruct (Ascii.eqb_spec a b) as [->|]; [|done].
    intros H. by rewrite (IH _ H).
Qed.

Lemma replace_prefix p rep s : Text.replace p rep (p +:+ s) = rep +:+ s.
Proof.
  destruct (p +:+ s) eqn:E; simpl; rewrite <- E, strip_prefix_app; done.
Qed.

Lemma digit_is_digit c : Text.is_digit c = true ↔ digit c.
Proof.
  unfold Text.is_digit, digit. rewrite andb_true_iff, !Z.leb_le. done.
Qed.

Lemma all_digits_digits s : s ≠ EmptyString → Text.all_digits s = true → digits s.
Proof.
  induction s as [|c s IH]; [done|]. intros _. simpl.
  rewrite andb_true_iff, digit_is_digit. intros [Hc Hs].
  destruct s as [|c' s']; [by constructor|].
  apply digits_more; [done|]. by apply IH.
Qed.

Lemma digits_all_digits s : digits s → s ≠ EmptyString ∧ Text.all_digits s = true.
Proof.
  induction 1 as [c Hc|c s Hc _ [_ IH]]; (split; [done|]); simpl;
    apply andb_true_iff; split; try done; by apply digit_is_digit.
Qed.

(** The regular expression accepts exactly the group selectors. *)
Lemma group_pattern_spec s : group_pattern s = true ↔ group_token_of s.
Proof.
  unfold group_pattern, group_token_of. split.
  - destruct (Text.strip_prefix "$group_" s) as [ds|] eqn:E; [|done].
    rewrite andb_true_iff, negb_true_iff. intros [Hne Hd].
    exists ds. split; [by apply strip_prefix_Some|].
    apply all_digits_digits; [|done].
    intros ->. done.
  - intros (ds & -> & Hd). rewrite strip_prefix_app.
    destruct (digits_all_digits _ Hd) as [Hne ->].
    destruct ds; done.
Qed.

(** ** Numbers and their text *)

Lemma digit_of_decimal c : digit c → ParseInt.digit_of 10 c = Some (Text.code c - 48).
Proof.
  unfold digit, ParseInt.digit_of. intros [Hlo Hhi].
  destruct (Z.leb_spec 48 (Text.code c)); [|lia].
  destruct (Z.leb_spec (Text.code c) 57); [|lia]. simpl.
  destruct (Z.ltb_spec (Text.code c - 48) 10); [done|lia].
Qed.

Lemma digits_prefix_decimal s a :
  Text.all_digits s = true →
  ParseInt.digits_prefix 10 (Some a) s = Some (Text.decimal_from a s).
Proof.
  revert a; induction s as [|c s IH]; intros a; simpl; [done|].
  rewrite andb_true_iff, digit_is_digit. intros [Hc Hs].
  rewrite (digit_of_decimal _ Hc). by apply IH.
Qed.

Lemma digit_not_space c : digit c → ParseInt.is_space c = false.
Proof.
  unfold digit, ParseInt.is_space. intros [Hlo Hhi]. simpl.
  destruct (Z.leb_spec (Text.code c) 13); [lia|].
  destruct (Z.eqb_spec (Text.code c) 32); [lia|].
  by rewrite andb_false_r.
Qed.

Lemma digit_neq c (k : ascii) : digit c → ¬ digit k → Ascii.eqb c k = false.
Proof. intros Hc Hk. destruct (Ascii.eqb_spec c k) as [->|]; done. Qed.

Ltac eval_codes :=
  repeat match goal with
    | |- context [Text.code ?c] =>
        let v := eval vm_compute in (Text.code c) in change (Text.code c) with v
    end.

Ltac not_a_digit := unfold digit; vm_compute; intuition congruence.

(** A safe integer is its own double, and no integer rounds below zero. *)
Lemma MAX_SAFE_below_MAX_VALUE : MAX_SAFE_INTEGER <= MAX_VALUE.
Proof. by vm_compute. Qed.

Lemma round_safe z : 0 <= z <= MAX_SAFE_INTEGER → Double.round z = z.
Proof.
  intros [Hlo Hhi]. unfold Double.round.
  destruct (Z.leb_spec (Z.log2 z + 1) 53) as [|Hbits]; [done|].
  destruct (Z.eq_dec z 0) as [->|Hz]; [done|].
  assert (Z.log2 z < 53); [|lia].
  apply Z.log2_lt_pow2; [lia|]. unfold MAX_SAFE_INTEGER in Hhi. lia.
Qed.

Lemma round_nonneg z : 0 <= z → 0 <= Double.round z.
Proof.
  intros Hz. unfold Double.round.
  destruct (Z.leb_spec (Z.log2 z + 1) 53); [done|].
  assert (0 < 2 ^ (Z.log2 z + 1 - 53)) as Hulp.
  { apply Z.pow_pos_nonneg; [done|lia]. }
  pose proof (Z.div_pos z _ Hz Hulp).
  destruct (_ || _); nia.
Qed.

Lemma to_number_safe z : 0 <= z <= MAX_SAFE_INTEGER → to_number z = Int z.
Proof.
  intros Hz. unfold to_number.
  rewrite Z.abs_eq, (round_safe z Hz) by lia.
  pose proof MAX_SAFE_below_MAX_VALUE.
  destruct (Z.ltb_spec MAX_VALUE z); [lia|].
  f_equal. destruct z; simpl; lia.
Qed.

(** The Number for a non-negative integer is a non-negative integer or
    [Infinity]. *)
Lemma to_number_nonneg z :
  0 <= z → (∃ n, to_number z = Int n ∧ 0 <= n) ∨ to_number z = Infinity.
Proof.
  intros Hz. unfold to_number. rewrite (Z.abs_eq z Hz).
  destruct (MAX_VALUE <? Double.round z).
  - right. by destruct (Z.ltb_spec z 0); [lia|].
  - left. eexists. split; [done|].
    pose proof (round_nonneg z Hz). destruct z; simpl; lia.
Qed.

(** On one or more digits [parseInt] returns the Number for the integer
    they denote: there is nothing to trim, no sign and no radix prefix. *)
Lemma parseInt_digits ds : digits ds → parseInt ds = to_number (Text.decimal_value ds).
Proof.
  intros Hd. destruct (digits_all_digits _ Hd) as [_ Hall].
  destruct ds as [|c s]; [inversion Hd|].
  simpl in Hall. apply andb_true_iff in Hall as [Hc Hs].
  apply digit_is_digit in Hc.
  unfold parseInt. simpl ParseInt.trim_start. rewrite (digit_not_space _ Hc).
  unfold ParseInt.sign_of.
  rewrite (digit_neq c "-" Hc), (digit_neq c "+" Hc) by not_a_digit.
  assert (ParseInt.radix_of (String c s) = (10, String c s)) as ->.
  { unfold ParseInt.radix_of. destruct s as [|x s']; [done|].
    simpl in Hs. apply andb_true_iff in Hs as [Hx _].
    apply digit_is_digit in Hx.
    rewrite (digit_neq x "x" Hx), (digit_neq x "X" Hx) by not_a_digit.
    by rewrite andb_false_r. }
  cbn [ParseInt.digits_prefix].
  rewrite (digit_of_decimal _ Hc), digits_prefix_decimal by done.
  done.
Qed.

Lemma string_of_uint_digits d : d ≠ Nil → digits (NilEmpty.string_of_uint d).
Proof.
  induction d as [|d IH|d IH|d IH|d IH|d IH|d IH|d IH|d IH|d IH|d IH];
    [done|..]; intros _; simpl;
    (destruct d; [apply digits_one | apply digits_more; [|by apply IH] ..]);
    not_a_digit.
Qed.

Lemma decimal_from_uint_acc d acc :
  Text.decimal_from (Zpos acc) (NilEmpty.string_of_uint d) = Zpos (Pos.of_uint_acc d acc).
Proof.
  revert acc;
    induction d as [|d IH|d IH|d IH|d IH|d IH|d IH|d IH|d IH|d IH|d IH];
    intros acc; simpl; [done|..];
    rewrite <- IH; f_equal; eval_codes; lia.
Qed.

Lemma decimal_value_uint d :
  Text.decimal_value (NilEmpty.string_of_uint d) = Z.of_N (Pos.of_uint d).
Proof.
  unfold Text.decimal_value.
  induction d as [|d IH|d IH|d IH|d IH|d IH|d IH|d IH|d IH|d IH|d IH];
    simpl; [done|done|..]; apply (decimal_from_uint_acc d).
Qed.

(** A non-negative integer is written in decimal as one or more digits
    that denote it. *)
Lemma decimal_nonneg z :
  0 <= z →
  digits (NumberText.decimal z) ∧ Text.decimal_value (NumberText.decimal z) = z.
Proof.
  unfold NumberText.decimal.
  destruct z as [|p|p]; [intros _|intros _|lia].
  - split; [apply digits_one; not_a_digit|done].
  - simpl. pose proof (Unsigned.to_uint_nonnil p) as Hnil.
    assert (NilZero.string_of_uint (Pos.to_uint p)
            = NilEmpty.string_of_uint (Pos.to_uint p)) as ->.
    { by destruct (Pos.to_uint p). }
    split; [by apply string_of_uint_digits|].
    by rewrite decimal_value_uint, Unsigned.of_to.
Qed.

(** A non-negative safe integer is printed in plain decimal. *)
Lemma number_to_string_safe z :
  0 <= z <= MAX_SAFE_INTEGER → number_to_string (Int z) = NumberText.decimal z.
Proof.
  intros [Hlo Hhi]. unfold number_to_string, NumberText.positive_text.
  destruct z as [|p|p]; [done| |lia].
  by destruct (Z.leb_spec (Z.pos p) MAX_SAFE_INTEGER); [|lia].
Qed.

Lemma number_to_string_nonneg z :
  0 <= z <= MAX_SAFE_INTEGER →
  digits (number_to_string (Int z)) ∧ Text.decimal_value (number_to_string (Int z)) = z.
Proof.
  intros Hz. rewrite (number_to_string_safe z Hz). apply decimal_nonneg. lia.
Qed.

Lemma parseInt_number_to_string z :
  0 <= z <= MAX_SAFE_INTEGER → parseInt (number_to_string (Int z)) = Int z.
Proof.
  intros Hz. destruct (number_to_string_nonneg z Hz) as [Hd Hv].
  by rewrite (parseInt_digits _ Hd), Hv, to_number_safe.
Qed.

Lemma decimal_from_nonneg s a :
  0 <= a → Text.all_digits s = true → 0 <= Text.decimal_from a s.
Proof.
  revert a; induction s as [|c s IH]; intros a Ha; simpl; [done|].
  rewrite andb_true_iff, digit_is_digit. intros [[Hlo Hhi] Hs].
  apply IH; [lia|done].
Qed.

Lemma decimal_value_nonneg ds : digits ds → 0 <= Text.decimal_value ds.
Proof.
  intros Hd. destruct (digits_all_digits _ Hd) as [_ Hall].
  by apply decimal_from_nonneg.
Qed.

(** ** The three branches of [hogQLToFilterValue] *)

Lemma decode_group ds :
  digits ds →
  hogQLToFilterValue (Some ("$group_" +:+ ds))
  = Ok {[ "groupIndex" := VNumber (to_number (Text.decimal_value ds)) ]}.
Proof.
  intros Hd. unfold hogQLToFilterValue.
  assert (optional_match (Some ("$group_" +:+ ds)) = true) as ->.
  { apply group_pattern_spec. by exists ds. }
  cbn [receiver mbind result_bind].
  rewrite replace_prefix. change ("" +:+ ds) with ds.
  by rewrite (parseInt_digits _ Hd).
Qed.

Lemma decode_person : hogQLToFilterValue (Some "person_id") = Ok ∅.
Proof. by vm_compute. Qed.

Lemma decode_other value :
  (∀ s, value = Some s → ¬ group_token_of s) →
  value ≠ Some "person_id" →
  hogQLToFilterValue value = Ok {[ "aggregationQuery" := of_string value ]}.
Proof.
  intros Hg Hp. unfold hogQLToFilterValue.
  assert (optional_match value = false) as ->.
  { destruct value as [s|]; [|done]. simpl.
    destruct (group_pattern s) eqn:E; [|done].
    apply group_pattern_spec in E. by destruct (Hg s). }
  by destruct (decide (value = Some "person_id")).
Qed.

Lemma hogQLToFilterValue_inv value :
  (∃ ds, digits ds ∧ value = Some ("$group_" +:+ ds)
         ∧ hogQLToFilterValue value
           = Ok {[ "groupIndex" := VNumber (to_number (Text.decimal_value ds)) ]})
  ∨ (value = Some "person_id" ∧ hogQLToFilterValue value = Ok ∅)
  ∨ ((∀ s, value = Some s → ¬ group_token_of s) ∧ value ≠ Some "person_id"
     ∧ hogQLToFilterValue value = Ok {[ "aggregationQuery" := of_string value ]}).
Proof.
  destruct (optional_match value) eqn:E.
  - left. destruct value as [s|]; [|done]. simpl in E.
    apply group_pattern_spec in E as (ds & -> & Hd).
    exists ds. by rewrite decode_group.
  - right. destruct (decide (value = Some "person_id")) as [->|Hp].
    + left. split; [done|apply decode_person].
    + right. assert (∀ s, value = Some s → ¬ group_token_of s) as Hg.
      { intros s -> Hs. apply group_pattern_spec in Hs. simpl in E. congruence. }
      by rewrite decode_other.
Qed.

Lemma hogQLToFilterValue_Ok value : ∃ d, hogQLToFilterValue value = Ok d.
Proof.
  destruct (hogQLToFilterValue_inv value)
    as [(ds & _ & _ & ->)|[[_ ->]|(_ & _ & ->)]]; by eexists.
Qed.

Lemma person_id_not_group : ¬ group_token_of "person_id".
Proof. intros H. by apply group_pattern_spec in H. Qed.

Lemma Ok_inj {A} (a b : A) : Ok a = Ok b → a = b.
Proof. by intros [= ->]. Qed.

(** Objects with different properties differ. *)
Lemma singleton_not_empty (k : string) (v : jsval) :
  ({[ k := v ]} : object) ≠ ∅.
Proof. intros H. apply (f_equal (lookup k)) in H. by rewrite lookup_singleton_eq in H. Qed.

Lemma singletons_differ (k k' : string) (v v' : jsval) :
  k ≠ k' → ({[ k := v ]} : object) ≠ {[ k' := v' ]}.
Proof.
  intros Hk H. apply (f_equal (lookup k)) in H.
  by rewrite lookup_singleton_eq, lookup_singleton_ne in H.
Qed.

(** ** Bounds on the Number for a run of digits *)

Lemma nzhead_not_D0 d u : nzhead d ≠ D0 u.
Proof. induction d; simpl; done. Qed.

(** The decimal text of a non-negative integer has no leading zero. *)
Lemma decimal_canonical z :
  0 <= z →
  NumberText.decimal z = "0"
  ∨ ∃ c rest, NumberText.decimal z = String c rest ∧ c ≠ "0"%char.
Proof.
  unfold NumberText.decimal.
  destruct z as [|p|p]; [by left| |lia]. intros _. right. simpl.
  pose proof (Unsigned.to_of (Pos.to_uint p)) as Hnorm.
  rewrite Unsigned.of_to in Hnorm. simpl in Hnorm.
  pose proof (Unsigned.to_uint_nonzero p) as Hnz.
  pose proof (Unsigned.to_uint_nonnil p) as Hnil.
  assert (∀ u, Pos.to_uint p ≠ D0 u) as Hhead.
  { intros u Hu. rewrite Hu in Hnorm. unfold unorm in Hnorm.
    destruct (nzhead (D0 u)) eqn:E;
      try (symmetry in Hnorm; rewrite <- E in Hnorm; by apply nzhead_not_D0 in Hnorm).
    apply Hnz. by rewrite Hu, Hnorm. }
  destruct (Pos.to_uint p) as [|u|u|u|u|u|u|u|u|u|u]; [done|by destruct (Hhead u)|..];
    simpl; eexists; eexists; (split; [done|]); done.
Qed.

Lemma round_le z : 0 <= z → Double.round z * 2 ^ 52 <= z * (2 ^ 52 + 1).
Proof.
  intros Hz. unfold Double.round.
  destruct (Z.leb_spec (Z.log2 z + 1) 53) as [|Hbits]; [lia|].
  assert (0 < z) as Hpos.
  { destruct (Z.eq_dec z 0) as [->|]; [done|lia]. }
  set (ulp := 2 ^ (Z.log2 z + 1 - 53)).
  assert (0 < ulp) as Hulp by (apply Z.pow_pos_nonneg; [done|lia]).
  assert (ulp * 2 ^ 52 <= z) as Hz'.
  { unfold ulp. rewrite <- Z.pow_add_r by lia.
    replace (Z.log2 z + 1 - 53 + 52) with (Z.log2 z) by lia.
    by apply Z.log2_spec. }
  pose proof (Z.mul_div_le z ulp Hulp) as Hq.
  assert (0 <= z / ulp) as Hq0 by (apply Z.div_pos; lia).
  change (2 ^ 52) with 4503599627370496 in *.
  destruct (_ || _); nia.
Qed.

(** Rounding is idempotent: a representable integer is its own nearest
    double. *)
Lemma round_round z : 0 <= z → Double.round (Double.round z) = Double.round z.
Proof.
  intros Hz. unfold Double.round at 2 3.
  destruct (Z.leb_spec (Z.log2 z + 1) 53) as [Hsmall|Hbits].
  { unfold Double.round. by destruct (Z.leb_spec (Z.log2 z + 1) 53); [|lia]. }
  assert (0 < z) as Hpos.
  { destruct (Z.eq_dec z 0) as [->|]; [done|lia]. }
  set (s := Z.log2 z + 1 - 53). assert (0 < s) as Hs by (unfold s; lia).
  set (ulp := 2 ^ s).
  assert (0 < ulp) as Hulp by (apply Z.pow_pos_nonneg; lia).
  destruct (Z.log2_spec z Hpos) as [Hlow Hhigh].
  assert (2 ^ Z.log2 z = 2 ^ 52 * ulp) as Hlog.
  { unfold ulp. rewrite <- Z.pow_add_r by lia. f_equal. unfold s. lia. }
  assert (2 ^ Z.succ (Z.log2 z) = 2 ^ 53 * ulp) as Hlog'.
  { unfold ulp. rewrite <- Z.pow_add_r by lia. f_equal. unfold s. lia. }
  assert (2 ^ 52 <= z / ulp) as Hq1 by (apply Z.div_le_lower_bound; lia).
  assert (z / ulp < 2 ^ 53) as Hq2 by (apply Z.div_lt_upper_bound; lia).
  set (q' := if (ulp <? 2 * (z mod ulp)) || (2 * (z mod ulp) =? ulp) && Z.odd (z / ulp)
             then z / ulp + 1 else z / ulp).
  assert (2 ^ 52 <= q' <= 2 ^ 53) as Hq' by (unfold q'; destruct (_ || _); lia).
  unfold Double.round.
  assert (Z.log2 (q' * ulp) = s + Z.log2 q') as Hlogv.
  { unfold ulp. apply Z.log2_mul_pow2; lia. }
  rewrite Hlogv.
  destruct (Z.eq_dec q' (2 ^ 53)) as [Heq|Hne].
  - rewrite Heq. change (Z.log2 (2 ^ 53)) with 53.
    destruct (Z.leb_spec (s + 53 + 1) 53); [lia|].
    replace (s + 53 + 1 - 53) with (s + 1) by lia.
    assert (2 ^ 53 * ulp = 2 ^ 52 * 2 ^ (s + 1)) as ->.
    { unfold ulp. rewrite Z.pow_add_r by lia. change (2 ^ 53) with (2 ^ 52 * 2). ring. }
    assert (0 < 2 ^ (s + 1)) by (apply Z.pow_pos_nonneg; lia).
    rewrite Z.div_mul, Z.mod_mul by lia.
    destruct (Z.ltb_spec (2 ^ (s + 1)) (2 * 0)); [lia|].
    destruct (Z.eqb_spec (2 * 0) (2 ^ (s + 1))); [lia|]. done.
  - assert (Z.log2 q' = 52) as ->.
    { apply Z.log2_unique; [done|]. change (2 ^ Z.succ 52) with (2 ^ 53). lia. }
    destruct (Z.leb_spec (s + 52 + 1) 53); [lia|].
    replace (s + 52 + 1 - 53) with s by lia. fold ulp.
    rewrite Z.div_mul, Z.mod_mul by lia.
    destruct (Z.ltb_spec ulp (2 * 0)); [lia|].
    destruct (Z.eqb_spec (2 * 0) ulp); [lia|]. done.
Qed.

(** What [to_number] returns is a Number, *)
Lemma to_number_is_number z : is_number (to_number z).
Proof.
  destruct (Z.eq_dec z 0) as [->|Hz]; [done|].
  unfold to_number.
  pose proof (round_nonneg (Z.abs z) (Z.abs_nonneg z)) as Hv.
  destruct (Z.ltb_spec MAX_VALUE (Double.round (Z.abs z))) as [|Hmax].
  { by destruct (z <? 0). }
  unfold is_number, to_number.
  set (v := Double.round (Z.abs z)) in *.
  assert (Z.abs (Z.sgn z * v) = v) as Habs.
  { destruct (Z.sgn_spec z) as [[_ ->]|[[? _]|[_ ->]]]; lia. }
  assert (Double.round v = v) as Hvv by apply round_round, Z.abs_nonneg.
  rewrite Habs, Hvv.
  destruct (Z.ltb_spec MAX_VALUE v); [lia|].
  f_equal. rewrite Z.sgn_mul, Z.sgn_sgn.
  destruct (Z.sgn_spec v) as [[_ Hs]|[[Hv0 Hs]|[? _]]].
  - rewrite Hs. ring.
  - rewrite Hs, <- Hv0. ring.
  - lia.
Qed.

(** and so is every result of [parseInt]. *)
Lemma parseInt_is_number s : is_number (parseInt s).
Proof.
  unfold parseInt. destruct (ParseInt.sign_of _) as [negative s1].
  destruct (ParseInt.radix_of _) as [radix s2].
  destruct (ParseInt.digits_prefix _ _ _); [apply to_number_is_number|done].
Qed.

(** An integer below [10 ^ 308] stays finite. *)
Lemma to_number_finite z : 0 <= z < 10 ^ 308 → ∃ n, to_number z = Int n ∧ 0 <= n.
Proof.
  intros [Hlo Hhi].
  destruct (to_number_nonneg z Hlo) as [|Hinf]; [done|]. exfalso.
  unfold to_number in Hinf. rewrite (Z.abs_eq z Hlo) in Hinf.
  destruct (Z.ltb_spec MAX_VALUE (Double.round z)) as [Hover|]; [|done].
  pose proof (round_le z Hlo) as Hle.
  assert (10 ^ 308 * (2 ^ 52 + 1) <= MAX_VALUE * 2 ^ 52) as Hclosed by (by vm_compute).
  change (2 ^ 52) with 4503599627370496 in *.
  revert Hhi Hclosed Hover Hle.
  generalize (10 ^ 308) MAX_VALUE (Double.round z). lia.
Qed.

Lemma decimal_from_lt s a :
  0 <= a → Text.all_digits s = true →
  Text.decimal_from a s < (a + 1) * 10 ^ Z.of_nat (String.length s).
Proof.
  revert a; induction s as [|c s IH]; intros a Ha; simpl String.length.
  - simpl. lia.
  - simpl Text.all_digits. rewrite andb_true_iff, digit_is_digit.
    intros [[Hlo Hhi] Hs]. simpl Text.decimal_from.
    specialize (IH (10 * a + (Text.code c - 48)) ltac:(lia) Hs).
    rewrite Nat2Z.inj_succ, Z.pow_succ_r by lia.
    assert (0 < 10 ^ Z.of_nat (String.length s)) by (apply Z.pow_pos_nonneg; lia).
    nia.
Qed.

(** A run of at most 308 digits denotes a finite Number. *)
Lemma short_digits_finite ds :
  digits ds → (String.length ds <= 308)%nat →
  ∃ n, to_number (Text.decimal_value ds) = Int n ∧ 0 <= n.
Proof.
  intros Hd Hlen. destruct (digits_all_digits _ Hd) as [_ Hall].
  apply to_number_finite. split; [by apply decimal_value_nonneg|].
  pose proof (decimal_from_lt ds 0 ltac:(done) Hall) as Hlt.
  unfold Text.decimal_value.
  assert (10 ^ Z.of_nat (String.length ds) <= 10 ^ 308)
    by (apply Z.pow_le_mono_r; lia).
  lia.
Qed.

(** ** The codec *)

(** C3. [getHogQLValue] returns "$group_" followed by the text of the
    group index when the index is present, whatever the aggregation query:
    the plain decimal digits for a safe integer (after a minus sign for a
    negative one), and what JavaScript prints otherwise ("1e+21", "NaN",
    "Infinity"). Without an index it returns the aggregation query itself
    when that is a non-empty string, and "person_id" otherwise; in
    particular [getHogQLValue(undefined, undefined)] is "person_id". *)
Theorem getHogQLValue_cases :
  (∀ (g : number) (q : option string),
     is_number g → getHogQLValue (Some g) q = "$group_" +:+ number_to_string g)
  ∧ (∀ (z : Z) (q : option string),
       0 <= z <= MAX_SAFE_INTEGER →
       ∃ ds, getHogQLValue (Some (Int z)) q = "$group_" +:+ ds
             ∧ digits ds ∧ Text.decimal_value ds = z
             ∧ (ds = "0" ∨ ∃ c rest, ds = String c rest ∧ c ≠ "0"%char))
  ∧ (∀ (z : Z) (q : option string),
       - MAX_SAFE_INTEGER <= z < 0 →
       ∃ ds, getHogQLValue (Some (Int z)) q = "$group_-" +:+ ds
             ∧ digits ds ∧ Text.decimal_value ds = - z)
  ∧ getHogQLValue (Some (Int 3)) (Some "distinct_id") = "$group_3"
  ∧ getHogQLValue (Some (Int 12)) None = "$group_12"
  ∧ getHogQLValue (Some (Int 0)) (Some "") = "$group_0"
  ∧ getHogQLValue (Some (Int (10 ^ 21))) None = "$group_1e+21"
  ∧ getHogQLValue (Some NaN) None = "$group_NaN"
  ∧ getHogQLValue (Some Infinity) None = "$group_Infinity"
  ∧ (∀ s : string, s ≠ "" → getHogQLValue None (Some s) = s)
  ∧ getHogQLValue None (Some "distinct_id") = "distinct_id"
  ∧ getHogQLValue None (Some "") = "person_id"
  ∧ getHogQLValue None None = "person_id".
Proof.
  split; [done|].
  split.
  { intros z q Hz. exists (NumberText.decimal z).
    cbn [getHogQLValue]. rewrite (number_to_string_safe z Hz).
    split; [done|].
    destruct (decimal_nonneg z) as [Hd Hv]; [lia|].
    split; [done|]. split; [done|]. apply decimal_canonical. lia. }
  split.
  { intros z q [Hlo Hhi]. destruct z as [|p|p]; [lia|lia|].
    exists (NumberText.decimal (Z.pos p)).
    destruct (decimal_nonneg (Z.pos p)) as [Hd Hv]; [lia|].
    split; [|done].
    cbn [getHogQLValue number_to_string]. unfold NumberText.positive_text.
    by destruct (Z.leb_spec (Z.pos p) MAX_SAFE_INTEGER); [|lia]. }
  do 6 (split; [by vm_compute|]).
  split; [|by vm_compute].
  intros s Hs. simpl. by destruct s.
Qed.

Lemma getHogQLValue_cases_witness :
  ∃ ds, getHogQLValue (Some (Int 4)) None = "$group_" +:+ ds
        ∧ digits ds ∧ Text.decimal_value ds = 4.
Proof.
  destruct (proj1 (proj2 getHogQLValue_cases) 4 None) as (ds & H1 & H2 & H3 & _).
  - unfold MAX_SAFE_INTEGER. lia.
  - exists ds. split; [exact H1|]. split; [exact H2|exact H3].
Defined.

(** C2, as stated, fails: the group index is not always the integer the
    digits denote. For "$group_9007199254740993" it is 9007199254740992,
    the nearest double, and for 309 nines it is [Infinity]. *)
Lemma hogQLToFilterValue_cases_counterexample :
  hogQLToFilterValue (Some "$group_9007199254740993")
  = Ok {[ "groupIndex" := VNumber (Int 9007199254740992) ]}
  ∧ Text.decimal_value "9007199254740993" = 9007199254740993
  ∧ hogQLToFilterValue (Some overflowing_selector)
    = Ok {[ "groupIndex" := VNumber Infinity ]}.
Proof. repeat split; by vm_compute. Qed.

(** C2, amended. [hogQLToFilterValue] returns [{groupIndex: N}] exactly
    when its argument is "$group_" followed by one or more digits; [N] is
    the Number for the integer the digits denote, which is that integer
    up to [MAX_SAFE_INTEGER] (beyond, the nearest double, and [Infinity]
    past the largest one). It returns [{}] exactly when the argument is
    "person_id"; otherwise it returns [{aggregationQuery: value}], also
    for an undefined or empty argument. "$group_3" gives 3, "$group_12"
    gives 12, and "" gives [{aggregationQuery: ""}]. *)
Theorem hogQLToFilterValue_cases :
  (∀ ds, digits ds →
     hogQLToFilterValue (Some ("$group_" +:+ ds))
     = Ok {[ "groupIndex" := VNumber (to_number (Text.decimal_value ds)) ]})
  ∧ (∀ ds, digits ds → Text.decimal_value ds <= MAX_SAFE_INTEGER →
       hogQLToFilterValue (Some ("$group_" +:+ ds))
       = Ok {[ "groupIndex" := VNumber (Int (Text.decimal_value ds)) ]})
  ∧ (∀ value N, hogQLToFilterValue value = Ok {[ "groupIndex" := N ]} →
       ∃ s, value = Some s ∧ group_token_of s)
  ∧ (∀ value, hogQLToFilterValue value = Ok ∅ ↔ value = Some "person_id")
  ∧ (∀ s : string, ¬ group_token_of s → s ≠ "person_id" →
       hogQLToFilterValue (Some s) = Ok {[ "aggregationQuery" := VString s ]})
  ∧ hogQLToFilterValue None = Ok {[ "aggregationQuery" := VUndefined ]}
  ∧ hogQLToFilterValue (Some "$group_3") = Ok {[ "groupIndex" := VNumber (Int 3) ]}
  ∧ hogQLToFilterValue (Some "$group_12") = Ok {[ "groupIndex" := VNumber (Int 12) ]}
  ∧ hogQLToFilterValue (Some "$group_007") = Ok {[ "groupIndex" := VNumber (Int 7) ]}
  ∧ hogQLToFilterValue (Some "") = Ok {[ "aggregationQuery" := VString "" ]}
  ∧ hogQLToFilterValue (Some "properties.$session_id")
    = Ok {[ "aggregationQuery" := VString "properties.$session_id" ]}
  ∧ hogQLToFilterValue (Some "x$group_3")
    = Ok {[ "aggregationQuery" := VString "x$group_3" ]}.
Proof.
  split; [apply decode_group|].
  split.
  { intros ds Hd Hsafe. rewrite (decode_group _ Hd), to_number_safe; [done|].
    split; [by apply decimal_value_nonneg|done]. }
  split.
  { intros value N.
    destruct (hogQLToFilterValue_inv value)
      as [(ds & Hd & -> & _)|[[_ ->]|(_ & _ & ->)]].
    - intros _. eexists. split; [done|]. by exists ds.
    - intros H%Ok_inj. symmetry in H. by apply singleton_not_empty in H.
    - intros H%Ok_inj. by apply singletons_differ in H. }
  split.
  { intros value. split; [|intros ->; apply decode_person].
    destruct (hogQLToFilterValue_inv value)
      as [(ds & Hd & _ & ->)|[[-> _]|(_ & _ & ->)]]; [|done|].
    - intros H%Ok_inj. by apply singleton_not_empty in H.
    - intros H%Ok_inj. by apply singleton_not_empty in H. }
  split.
  { intros s Hg Hp. apply (decode_other (Some s)); [by intros ? [= <-]|congruence]. }
  repeat split; by vm_compute.
Qed.

Lemma hogQLToFilterValue_cases_witness :
  hogQLToFilterValue (Some "$group_42") = Ok {[ "groupIndex" := VNumber (Int 42) ]}.
Proof.
  apply (proj1 (proj2 hogQLToFilterValue_cases) "42").
  - apply digits_more; [vm_compute; intuition congruence|].
    apply digits_one. vm_compute; intuition congruence.
  - by vm_compute.
Defined.

(** C4, as stated, fails: for a group selector of 309 nines the group
    index is [Infinity], which is no integer. *)
Lemma hogQLToFilterValue_total_counterexample :
  hogQLToFilterValue (Some overflowing_selector)
  = Ok {[ "groupIndex" := VNumber Infinity ]}.
Proof. by vm_compute. Qed.

(** C4, amended. [hogQLToFilterValue] never throws: for every argument,
    undefined included, it returns a descriptor. A group index in it is
    never [NaN] and never negative: it is a non-negative integer, or
    [Infinity] when the digits denote more than the largest Number, which
    takes a selector of more than 315 characters (309 digits or more). *)
Theorem hogQLToFilterValue_total (value : option string) :
  ∃ d, hogQLToFilterValue value = Ok d
       ∧ (∀ v, d !! "groupIndex" = Some v →
            (∃ n, v = VNumber (Int n) ∧ 0 <= n) ∨ v = VNumber Infinity)
       ∧ (∀ s v, value = Some s → (String.length s <= 315)%nat →
            d !! "groupIndex" = Some v → ∃ n, v = VNumber (Int n) ∧ 0 <= n).
Proof.
  destruct (hogQLToFilterValue_inv value)
    as [(ds & Hd & -> & ->)|[[_ ->]|(_ & _ & ->)]]; eexists; (split; [done|]).
  - split.
    + intros v. rewrite lookup_singleton_eq. intros [= <-].
      destruct (to_number_nonneg _ (decimal_value_nonneg _ Hd)) as [(n & -> & Hn)| ->];
        [left|right]; eauto.
    + intros s v [= <-] Hlen. rewrite lookup_singleton_eq. intros [= <-].
      destruct (short_digits_finite ds Hd) as (n & -> & Hn); [|eauto].
      change (String.length ("$group_" +:+ ds)) with (7 + String.length ds)%nat in Hlen.
      lia.
  - split; intros; by rewrite lookup_empty in *.
  - split; intros; by rewrite lookup_singleton_ne in *.
Qed.

(** C5. A descriptor returned by [hogQLToFilterValue] never has both the
    [groupIndex] and the [aggregationQuery] property, and it has neither
    exactly when the argument is "person_id", for which the result is
    [{}]. (Read by value instead, both are undefined for "person_id" and
    for an undefined argument, whose descriptor holds
    [aggregationQuery: undefined].) *)
Theorem hogQLToFilterValue_invariant :
  (∀ value d, hogQLToFilterValue value = Ok d →
     ¬ (is_Some (d !! "groupIndex") ∧ is_Some (d !! "aggregationQuery"))
     ∧ ((d !! "groupIndex" = None ∧ d !! "aggregationQuery" = None)
        ↔ value = Some "person_id")
     ∧ (d = ∅ ↔ value = Some "person_id")
     ∧ ((get "groupIndex" d = VUndefined ∧ get "aggregationQuery" d = VUndefined)
        ↔ value = Some "person_id" ∨ value = None))
  ∧ hogQLToFilterValue (Some "person_id") = Ok ∅.
Proof.
  split; [|apply decode_person].
  intros value d. unfold get.
  destruct (hogQLToFilterValue_inv value)
    as [(ds & Hd & -> & ->)|[[-> ->]|(Hg & Hp & ->)]]; intros <-%Ok_inj.
  - assert (Some ("$group_" +:+ ds) ≠ Some "person_id") as Hne.
    { intros H. destruct person_id_not_group.
      exists ds. split; [congruence|done]. }
    rewrite (lookup_singleton_ne "groupIndex" "aggregationQuery") by done.
    rewrite lookup_singleton_eq. simpl.
    split; [by intros [_ [? ?]]|].
    split; [split; [by intros [? _]|done]|].
    split; [split; [intros H; by apply singleton_not_empty in H|done]|].
    split; [by intros [? _]|by intros [?|?]].
  - rewrite !lookup_empty. simpl.
    split; [by intros [[? ?] _]|]. repeat split; by try left.
  - rewrite (lookup_singleton_ne "aggregationQuery" "groupIndex") by done.
    rewrite lookup_singleton_eq. simpl.
    split; [by intros [[? ?] _]|].
    split; [split; [by intros [_ ?]|done]|].
    split; [split; [intros H; by apply singleton_not_empty in H|done]|].
    destruct value as [s|]; simpl; [|split; [by right|done]].
    split; [by intros [_ ?]|]. by intros [?|?].
Qed.

Lemma hogQLToFilterValue_invariant_witness :
  ({[ "groupIndex" := VNumber (Int 3) ]} : object) = ∅ ↔ Some "$group_3" = Some "person_id".
Proof.
  apply (proj1 hogQLToFilterValue_invariant (Some "$group_3")).
  reflexivity.
Defined.

(** C9. For a non-empty selector that is neither "person_id" nor a group
    selector, encoding the fields of the decoded descriptor gives the
    selector back, and [getHogQLValue(undefined, s)] is [s]. Other
    selectors are not all preserved: "" becomes "person_id" and
    "$group_007" becomes "$group_7". *)
Theorem reencode_custom :
  (∀ s : string, s ≠ "" → s ≠ "person_id" → ¬ group_token_of s →
     reencode (Some s) = Ok s ∧ getHogQLValue None (Some s) = s)
  ∧ reencode (Some "") = Ok "person_id"
  ∧ reencode (Some "$group_007") = Ok "$group_7".
Proof.
  split; [|split; by vm_compute].
  intros s Hne Hp Hg.
  assert (getHogQLValue None (Some s) = s) as Henc by (simpl; by destruct s).
  split; [|done]. unfold reencode.
  rewrite (decode_other (Some s)) by (try congruence; by intros ? [= <-]).
  cbn [mbind result_bind]. unfold get.
  rewrite (lookup_singleton_ne "aggregationQuery" "groupIndex") by done.
  rewrite lookup_singleton_eq. simpl. by destruct s.
Qed.

Lemma reencode_custom_witness :
  reencode (Some "properties.$session_id") = Ok "properties.$session_id".
Proof.
  apply (proj1 reencode_custom "properties.$session_id"); [discriminate..|].
  intros H. apply group_pattern_spec in H. discriminate.
Defined.

(** C1, as stated, fails: with no group index and the aggregation query
    "person_id" the round trip returns [{}], not
    [{aggregationQuery: "person_id"}]; and the group index -1 comes back
    as the aggregation query "$group_-1". *)
Lemma round_trip_counterexample :
  hogQLToFilterValue (Some (getHogQLValue None (Some "person_id")))
  ≠ Ok (expected_descriptor None (Some "person_id"))
  ∧ hogQLToFilterValue (Some (getHogQLValue (Some (Int (-1))) None))
    ≠ Ok (expected_descriptor (Some (Int (-1))) None).
Proof.
  split.
  - change (Ok (∅ : object) ≠ Ok {[ "aggregationQuery" := VString "person_id" ]}).
    intros H%Ok_inj. symmetry in H. by apply singleton_not_empty in H.
  - change (Ok ({[ "aggregationQuery" := VString "$group_-1" ]} : object)
            ≠ Ok {[ "groupIndex" := VNumber (Int (-1)) ]}).
    intros H%Ok_inj. by apply singletons_differ in H.
Qed.

(** C1, amended. Decoding what [getHogQLValue] returns gives
    [{groupIndex: g}] when [g] is a non-negative safe integer; when [g] is
    undefined it gives [{aggregationQuery: q}] for a non-empty [q] that is
    neither "person_id" nor a group selector, and [{}] for an undefined or
    empty [q]. *)
Theorem round_trip_amended (g : option number) (q : option string) :
  match g with
  | Some n => ∃ z, n = Int z ∧ 0 <= z <= MAX_SAFE_INTEGER
  | None => ∀ s, q = Some s → s ≠ "person_id" ∧ ¬ group_token_of s
  end →
  hogQLToFilterValue (Some (getHogQLValue g q)) = Ok (expected_descriptor g q).
Proof.
  destruct g as [n|].
  - intros (z & -> & Hz).
    change (getHogQLValue (Some (Int z)) q) with ("$group_" +:+ number_to_string (Int z)).
    unfold expected_descriptor.
    destruct (number_to_string_nonneg z Hz) as [Hd Hv].
    by rewrite (decode_group _ Hd), Hv, to_number_safe.
  - destruct q as [s|]; [|intros _; apply decode_person].
    intros H. destruct (H s eq_refl) as [Hp Hg]. simpl.
    destruct (String.eqb_spec s "") as [->|Hne]; [apply decode_person|].
    by apply (decode_other (Some s)); [intros ? [= <-]|congruence].
Qed.

Lemma round_trip_amended_witness :
  hogQLToFilterValue (Some (getHogQLValue (Some (Int 3)) (Some "person_id")))
  = Ok {[ "groupIndex" := VNumber (Int 3) ]}.
Proof.
  apply (round_trip_amended (Some (Int 3)) (Some "person_id")).
  exists 3. split; [reflexivity|]. unfold MAX_SAFE_INTEGER. lia.
Defined.

(** ** The binding wrappers *)

Section WrapperProperties.

Variables isInsightQueryNode isFunnelsQuery isFunnelsFilter : object → bool.

Abbreviation DataExploration :=
  (AggregationSelectDataExploration isInsightQueryNode isFunnelsQuery).
Abbreviation Legacy := (AggregationSelect isFunnelsFilter).

(** The handler of the query-node wrapper, branch by branch. *)
Lemma DataExploration_onChange querySource cn ha :
  isInsightQueryNode querySource = true →
  ∃ p, DataExploration querySource cn ha = Some p
       ∧ ∀ value d, hogQLToFilterValue value = Ok d →
           onChange p value
           = Ok [updateQuerySource
                   (if isFunnelsQuery querySource
                    then <["funnelsFilter" :=
                             VObject (<["funnel_aggregate_by_hogql" := get "aggregationQuery" d]>
                                        (spread (get "funnelsFilter" querySource)))]>
                           {[ "aggregation_group_type_index" := get "groupIndex" d ]}
                    else {[ "aggregation_group_type_index" := get "groupIndex" d ]})].
Proof.
  intros Hq. unfold AggregationSelectDataExploration. rewrite Hq.
  eexists. split; [done|]. intros value d Hd. cbn [onChange].
  rewrite Hd. cbn [mbind result_bind].
  by destruct (isFunnelsQuery querySource).
Qed.

(** The handler of the legacy wrapper, branch by branch. *)
Lemma Legacy_onChange filters cn ha value d :
  hogQLToFilterValue value = Ok d →
  onChange (Legacy filters cn ha) value
  = Ok [setFilters
          (if isFunnelsFilter filters
           then <["funnel_aggregate_by_hogql" := get "aggregationQuery" d]>
                  (<["aggregation_group_type_index" := get "groupIndex" d]> filters)
           else <["aggregation_group_type_index" := get "groupIndex" d]> filters)].
Proof.
  intros Hd. unfold AggregationSelect. cbn [onChange].
  rewrite Hd. cbn [mbind result_bind].
  by destruct (isFunnelsFilter filters).
Qed.

End WrapperProperties.

(** C6, as stated, fails for the legacy wrapper: on a filter that is not
    a funnel filter but holds [funnel_aggregate_by_hogql], the dispatched
    filters hold that field too. *)
Lemma funnel_field_counterexample :
  insight_is_funnels stale_filters = false
  ∧ ∃ u, onChange (AggregationSelect insight_is_funnels stale_filters None None)
           (Some "$group_0")
         = Ok [setFilters u]
         ∧ u !! "funnel_aggregate_by_hogql" = Some (VString "properties.$session_id").
Proof.
  split; [by vm_compute|].
  exists (<["aggregation_group_type_index" := VNumber (Int 0)]> stale_filters).
  split; by vm_compute.
Qed.

(** C6, amended. When the query or filter is recognized as a funnel, the
    handler writes the decoded aggregation query into
    [funnelsFilter.funnel_aggregate_by_hogql] of the query update, and
    into [funnel_aggregate_by_hogql] of the dispatched filters. Otherwise
    it writes no funnel field: the query update is
    [aggregation_group_type_index] alone, and the dispatched filters are
    the current filters with [aggregation_group_type_index] replaced, so
    that they hold [funnel_aggregate_by_hogql] only as the current filters
    do. *)
Theorem funnel_field_written
    (isInsightQueryNode isFunnelsQuery isFunnelsFilter : object → bool)
    (querySource filters : object) (cn : option string) (ha : option bool)
    (value : option string) :
  isInsightQueryNode querySource = true →
  ∃ p d u u',
    AggregationSelectDataExploration isInsightQueryNode isFunnelsQuery querySource cn ha
    = Some p
    ∧ hogQLToFilterValue value = Ok d
    ∧ onChange p value = Ok [updateQuerySource u]
    ∧ onChange (AggregationSelect isFunnelsFilter filters cn ha) value = Ok [setFilters u']
    ∧ (if isFunnelsQuery querySource
       then ∃ funnelsFilter,
              u !! "funnelsFilter" = Some (VObject funnelsFilter)
              ∧ funnelsFilter !! "funnel_aggregate_by_hogql"
                = Some (get "aggregationQuery" d)
       else u = {[ "aggregation_group_type_index" := get "groupIndex" d ]}
            ∧ u !! "funnelsFilter" = None)
    ∧ (if isFunnelsFilter filters
       then u' !! "funnel_aggregate_by_hogql" = Some (get "aggregationQuery" d)
       else u' = <["aggregation_group_type_index" := get "groupIndex" d]> filters
            ∧ u' !! "funnel_aggregate_by_hogql" = filters !! "funnel_aggregate_by_hogql").
Proof.
  intros Hq.
  destruct (DataExploration_onChange isInsightQueryNode isFunnelsQuery querySource cn ha Hq)
    as (p & Hp & Hchange).
  destruct (hogQLToFilterValue_Ok value) as (d & Hd).
  exists p, d. eexists. eexists.
  split; [done|]. split; [done|].
  split; [by apply Hchange|].
  split; [by apply Legacy_onChange|].
  split.
  - destruct (isFunnelsQuery querySource).
    + eexists. split; [apply lookup_insert_eq|apply lookup_insert_eq].
    + split; [done|]. by apply lookup_singleton_ne.
  - destruct (isFunnelsFilter filters).
    + apply lookup_insert_eq.
    + split; [done|]. by apply lookup_insert_ne.
Qed.

Lemma funnel_field_written_witness :
  ∃ u', onChange (AggregationSelect insight_is_funnels stale_filters None None)
          (Some "$group_0")
        = Ok [setFilters u']
        ∧ u' !! "funnel_aggregate_by_hogql" = stale_filters !! "funnel_aggregate_by_hogql".
Proof.
  destruct (funnel_field_written (λ _, true) (kind_is "FunnelsQuery")
              insight_is_funnels trends_query stale_filters None None (Some "$group_0"))
    as (p & d & u & u' & _ & _ & _ & H' & _ & Hlegacy); [reflexivity|].
  exists u'. split; [exact H'|]. exact (proj2 Hlegacy).
Defined.

(** C10, as stated, fails for the legacy wrapper: on a filter that is not
    a funnel filter but holds [funnel_aggregate_by_hogql], choosing a
    custom expression dispatches filters that still carry an aggregation
    query field (the one they held, not the chosen expression). *)
Lemma custom_expression_counterexample :
  insight_is_funnels stale_filters = false
  ∧ hogQLToFilterValue (Some "distinct_id")
    = Ok {[ "aggregationQuery" := VString "distinct_id" ]}
  ∧ ∃ u, onChange (AggregationSelect insight_is_funnels stale_filters None None)
           (Some "distinct_id")
         = Ok [setFilters u]
         ∧ u !! "funnel_aggregate_by_hogql" = Some (VString "properties.$session_id").
Proof.
  split; [by vm_compute|]. split; [by vm_compute|].
  exists (<["aggregation_group_type_index" := VUndefined]> stale_filters).
  split; by vm_compute.
Qed.

(** C10, amended. For a query or filter that is not a funnel, when the
    chosen value decodes to a custom expression [s], both handlers drop
    it: the query update is [{aggregation_group_type_index: undefined}]
    whatever [s] is, and the dispatched filters are the current filters
    with [aggregation_group_type_index] set to undefined and every other
    field as it was. *)
Theorem custom_expression_dropped
    (isInsightQueryNode isFunnelsQuery isFunnelsFilter : object → bool)
    (querySource filters : object) (cn : option string) (ha : option bool)
    (value : option string) (s : string) :
  isInsightQueryNode querySource = true →
  isFunnelsQuery querySource = false →
  isFunnelsFilter filters = false →
  hogQLToFilterValue value = Ok {[ "aggregationQuery" := VString s ]} →
  ∃ p u',
    AggregationSelectDataExploration isInsightQueryNode isFunnelsQuery querySource cn ha
    = Some p
    ∧ onChange p value
      = Ok [updateQuerySource {[ "aggregation_group_type_index" := VUndefined ]}]
    ∧ onChange (AggregationSelect isFunnelsFilter filters cn ha) value = Ok [setFilters u']
    ∧ u' = <["aggregation_group_type_index" := VUndefined]> filters
    ∧ ∀ k, k ≠ "aggregation_group_type_index" → u' !! k = filters !! k.
Proof.
  intros Hq Hnq Hnf Hd.
  destruct (DataExploration_onChange isInsightQueryNode isFunnelsQuery querySource cn ha Hq)
    as (p & Hp & Hchange).
  exists p. eexists. split; [done|].
  assert (get "groupIndex" ({[ "aggregationQuery" := VString s ]} : object) = VUndefined)
    as Hg by (unfold get; by rewrite lookup_singleton_ne).
  split; [by rewrite (Hchange _ _ Hd), Hnq, Hg|].
  split; [by rewrite (Legacy_onChange _ _ _ _ _ _ Hd), Hnf, Hg|].
  split; [done|]. intros k Hk. by apply lookup_insert_ne.
Qed.

Lemma custom_expression_dropped_witness :
  onChange (AggregationSelect insight_is_funnels stale_filters None None) (Some "distinct_id")
  = Ok [setFilters (<["aggregation_group_type_index" := VUndefined]> stale_filters)].
Proof.
  destruct (custom_expression_dropped (λ _, true) (kind_is "FunnelsQuery")
              insight_is_funnels trends_query stale_filters None None
              (Some "distinct_id") "distinct_id")
    as (p & u' & _ & _ & H' & -> & _); [reflexivity..|exact H'].
Defined.

(** ** The select component *)

Section ComponentProperties.

Variables (model : GroupsModel) (access : GroupsAccess).

Lemma add_group_types_baseValues st l :
  baseValues (foldl (add_group_type model) st l) = baseValues st ++ (group_token <$> l).
Proof.
  revert st; induction l as [|groupType l IH]; intros st; simpl.
  - by rewrite app_nil_r.
  - rewrite IH. cbn [add_group_type baseValues]. by rewrite <- app_assoc.
Qed.

(** The values in [baseValues] when the custom option is built. *)
Lemma baseValues_known ha s :
  s ∈ baseValues (add_sessions ha (add_groups model access initial_locals))
  ↔ known_value model access ha s.
Proof.
  unfold add_sessions, add_groups, known_value.
  destruct (needsUpgradeForGroups access), (canStartUsingGroups access),
    ha as [[]|]; simpl;
    rewrite ?add_group_types_baseValues; simpl;
    rewrite ?elem_of_cons, ?elem_of_app, ?elem_of_cons, ?list_elem_of_fmap, ?elem_of_nil;
    unfold group_token; try (intuition congruence).
  all: split;
    [intros [?|H]; [by left|right];
     repeat match goal with H : _ ∨ _ |- _ => destruct H as [H|H] end;
     try done; try (destruct H as (gt & -> & Hin)); eauto 10
    |].
  all: intros [?|[(_ & _ & gt & Hin & ->)|[? ?]]]; eauto 10; try congruence.
Qed.

Lemma add_group_types_one_section st l :
  one_section st → one_section (foldl (add_group_type model) st l).
Proof.
  revert st; induction l as [|groupType l IH]; intros st; simpl; [done|].
  intros [sec Hsec]. apply IH. unfold one_section. simpl. rewrite Hsec. by eexists.
Qed.

Lemma before_custom_one_section ha :
  one_section (add_sessions ha (add_groups model access initial_locals)).
Proof.
  assert (one_section (add_groups model access initial_locals)) as [sec Hsec].
  { unfold add_groups.
    destruct (needsUpgradeForGroups access || canStartUsingGroups access).
    - by eexists.
    - apply add_group_types_one_section. by eexists. }
  unfold add_sessions. destruct (default false ha); [|by exists sec].
  unfold one_section. simpl. rewrite Hsec. by eexists.
Qed.

End ComponentProperties.

(** C7, as stated, fails for an absent selection: the guard lets
    undefined through, and the legacy wrapper then dispatches filters. *)
Lemma null_selection_counterexample :
  LemonSelect.onChange
    (AggregationSelectComponent one_group_model groups_enabled
       (AggregationSelect insight_is_funnels stale_filters None None))
    LemonSelect.Undefined
  = Ok [setFilters (<["aggregation_group_type_index" := VUndefined]> stale_filters)].
Proof. by vm_compute. Qed.

(** C7, amended. A null selection dispatches nothing: the handler
    returns without calling the [onChange] it was given, whatever that
    [onChange] does. Nothing else is ignored: an undefined selection is
    passed to [onChange] as undefined, and a chosen value as it is. *)
Theorem null_selection_ignored {E : Type} (model : GroupsModel) (access : GroupsAccess)
    (p : AggregationSelectComponentProps E) :
  LemonSelect.onChange (AggregationSelectComponent model access p) LemonSelect.Null = Ok []
  ∧ LemonSelect.onChange (AggregationSelectComponent model access p) LemonSelect.Undefined
    = onChange p None
  ∧ ∀ newValue,
      LemonSelect.onChange (AggregationSelectComponent model access p)
        (LemonSelect.Chosen newValue)
      = onChange p (Some newValue).
Proof. split; [reflexivity|]. split; [reflexivity|]. intros newValue. reflexivity. Qed.

(** C8. The last option of the list is the custom expression option; its
    value is the empty string when the current value is undefined or is
    one of the fixed values on offer, and the current value otherwise. *)
Theorem custom_option_value {E : Type} (model : GroupsModel) (access : GroupsAccess)
    (p : AggregationSelectComponentProps E) :
  ∃ sec custom,
    LemonSelect.select_options (AggregationSelectComponent model access p) = [sec]
    ∧ last (LemonSelect.options sec)
      = Some (LemonSelect.Group "Custom HogQL expression" [custom])
    ∧ (value p = None → LemonSelect.leaf_value custom = "")
    ∧ (∀ s, value p = Some s → known_value model access (hogqlAvailable p) s →
         LemonSelect.leaf_value custom = "")
    ∧ (∀ s, value p = Some s → ¬ known_value model access (hogqlAvailable p) s →
         LemonSelect.leaf_value custom = s).
Proof.
  destruct (before_custom_one_section model access (hogqlAvailable p)) as [sec Hsec].
  cbn [AggregationSelectComponent LemonSelect.select_options].
  unfold final_locals, add_custom. cbn [optionSections]. rewrite Hsec.
  eexists. eexists. split; [done|]. split; [apply last_snoc|].
  cbn [LemonSelect.leaf_value]. unfold custom_value.
  split; [by intros ->|]. split; intros s -> Hs.
  - apply baseValues_known in Hs. rewrite (bool_decide_eq_true_2 _ Hs).
    by rewrite orb_true_r.
  - rewrite <- baseValues_known in Hs. rewrite (bool_decide_eq_false_2 _ Hs).
    rewrite orb_false_r. by destruct (String.eqb_spec s "") as [->|].
Qed.

Lemma custom_option_value_witness :
  ∃ sec custom,
    optionSections
      (final_locals
         {| groupTypes := [{| group_type_index := Int 0 |}];
            aggregationLabel :=
              λ _, {| singular := "organization"; plural := "organizations" |} |}
         {| needsUpgradeForGroups := false; canStartUsingGroups := false |}
         None (Some "$group_0"))
    = [sec]
    ∧ last (LemonSelect.options sec)
      = Some (LemonSelect.Group "Custom HogQL expression" [custom])
    ∧ LemonSelect.leaf_value custom = "".
Proof.
  destruct (custom_option_value (E := action)
              {| groupTypes := [{| group_type_index := Int 0 |}];
                 aggregationLabel := λ _, {| singular := "organization";
                                             plural := "organizations" |} |}
              {| needsUpgradeForGroups := false; canStartUsingGroups := false |}
              {| className := None; hogqlAvailable := None; value := Some "$group_0";
                 onChange := λ _, Ok [] |})
    as (sec & custom & Hsec & Hlast & _ & Hknown & _).
  exists sec, custom. split; [exact Hsec|]. split; [exact Hlast|].
  apply (Hknown "$group_0"); [reflexivity|].
  right; left. split; [reflexivity|]. split; [reflexivity|].
  exists {| group_type_index := Int 0 |}. split; [apply list_elem_of_singleton|]; reflexivity.
Defined.

(** * Further properties *)

(** ** Selectors that are not group selectors *)

Lemma group_prefix_not_person t : "$group_" +:+ t ≠ "person_id".
Proof. done. Qed.

Lemma group_prefix_not_empty t : "$group_" +:+ t ≠ "".
Proof. done. Qed.

(** The text of a negative integer or of [NaN] is not a run of digits. *)
Lemma number_to_string_not_digits n :
  n = NaN ∨ (∃ z, n = Int z ∧ z < 0) →
  group_pattern ("$group_" +:+ number_to_string n) = false.
Proof.
  unfold group_pattern. rewrite strip_prefix_app.
  intros [->|(z & -> & Hz)]; [done|].
  destruct z as [|p|p]; [lia|lia|]. reflexivity.
Qed.

(** [getHogQLValue] never returns the empty string. *)
Lemma getHogQLValue_not_empty g q : getHogQLValue g q ≠ "".
Proof.
  destruct g as [n|]; [apply group_prefix_not_empty|].
  destruct q as [s|]; [|done]. simpl.
  by destruct (String.eqb_spec s "").
Qed.

(** [reencode] in terms of the decoded descriptor. *)
Lemma reencode_of value d :
  hogQLToFilterValue value = Ok d →
  reencode value
  = Ok (getHogQLValue (as_number (get "groupIndex" d)) (as_string (get "aggregationQuery" d))).
Proof. intros Hd. unfold reencode. by rewrite Hd. Qed.

Lemma get_singleton_eq (k : string) (v : jsval) : get k ({[ k := v ]} : object) = v.
Proof. unfold get. by rewrite lookup_singleton_eq. Qed.

Lemma get_singleton_ne (k k' : string) (v : jsval) :
  k ≠ k' → get k' ({[ k := v ]} : object) = VUndefined.
Proof. intros Hk. unfold get. by rewrite lookup_singleton_ne. Qed.

Lemma get_empty (k : string) : get k (∅ : object) = VUndefined.
Proof. done. Qed.

Lemma get_insert_eq (k : string) (v : jsval) (o : object) : get k (<[k := v]> o) = v.
Proof. unfold get. by rewrite lookup_insert_eq. Qed.

(** The three outcomes of decoding and encoding again. *)
Lemma reencode_inv value :
  (∃ ds, digits ds ∧ value = Some ("$group_" +:+ ds)
         ∧ reencode value
           = Ok ("$group_" +:+ number_to_string (to_number (Text.decimal_value ds))))
  ∨ ((value = Some "person_id" ∨ value = Some "" ∨ value = None)
     ∧ reencode value = Ok "person_id")
  ∨ (∃ s, value = Some s ∧ s ≠ "" ∧ s ≠ "person_id" ∧ ¬ group_token_of s
          ∧ reencode value = Ok s).
Proof.
  destruct (hogQLToFilterValue_inv value)
    as [(ds & Hd & -> & Hdec)|[[-> Hdec]|(Hg & Hp & Hdec)]];
    rewrite (reencode_of _ _ Hdec).
  - left. exists ds. rewrite get_singleton_eq, get_singleton_ne by done. eauto.
  - right; left. rewrite !get_empty. eauto.
  - rewrite get_singleton_eq, get_singleton_ne by done.
    destruct value as [s|]; [|right; left; eauto].
    destruct (String.eqb_spec s "") as [->|Hne]; [right; left; eauto|].
    right; right. exists s. simpl.
    destruct (String.eqb_spec s ""); [done|].
    repeat split; [done|congruence|by apply Hg].
Qed.

(** X1. A group index that is negative or [NaN] does not come back as a
    group index: its encoding is not a group selector, and decodes to an
    aggregation query holding that encoding. *)
Theorem improper_index_decodes_as_query (n : number) (q : option string) :
  n = NaN ∨ (∃ z, n = Int z ∧ z < 0) →
  hogQLToFilterValue (Some (getHogQLValue (Some n) q))
  = Ok {[ "aggregationQuery" := VString (getHogQLValue (Some n) q) ]}.
Proof.
  intros Hn. apply (decode_other (Some (getHogQLValue (Some n) q))).
  - intros s [= <-] Hs. apply group_pattern_spec in Hs.
    simpl in Hs. by rewrite (number_to_string_not_digits n Hn) in Hs.
  - intros H%(inj Some). by apply group_prefix_not_person in H.
Qed.

Lemma improper_index_decodes_as_query_witness :
  hogQLToFilterValue (Some (getHogQLValue (Some (Int (-7))) (Some "distinct_id")))
  = Ok {[ "aggregationQuery" := VString "$group_-7" ]}.
Proof.
  apply (improper_index_decodes_as_query (Int (-7)) (Some "distinct_id")).
  right. exists (-7). split; [reflexivity|lia].
Defined.

(** X2. For a selector whose group index, if it is a group selector,
    is a safe integer, and for an undefined one, decoding it and encoding
    the result gives a selector that is never empty and that the same two
    steps leave as it is. *)
Theorem reencode_idempotent (value : option string) :
  (∀ ds, value = Some ("$group_" +:+ ds) → digits ds →
     Text.decimal_value ds <= MAX_SAFE_INTEGER) →
  ∃ s, reencode value = Ok s ∧ s ≠ "" ∧ reencode (Some s) = Ok s.
Proof.
  intros Hsafe.
  destruct (reencode_inv value)
    as [(ds & Hd & -> & ->)|[[_ ->]|(s & -> & Hne & Hp & Hg & ->)]].
  - eexists. split; [done|]. split; [apply group_prefix_not_empty|].
    assert (0 <= Text.decimal_value ds <= MAX_SAFE_INTEGER) as Hz
      by (split; [by apply decimal_value_nonneg|by apply Hsafe]).
    rewrite (to_number_safe _ Hz).
    destruct (number_to_string_nonneg _ Hz) as [Hd' Hv].
    rewrite (reencode_of _ _ (decode_group _ Hd')).
    rewrite get_singleton_eq, get_singleton_ne by done.
    cbn [as_number as_string getHogQLValue]. by rewrite Hv, (to_number_safe _ Hz).
  - exists "person_id". split; [done|]. split; [done|]. by vm_compute.
  - exists s. split; [done|]. split; [done|].
    rewrite (reencode_of _ _ (decode_other (Some s) ltac:(by intros ? [= <-])
                                ltac:(congruence))).
    rewrite get_singleton_eq, get_singleton_ne by done. simpl.
    by destruct (String.eqb_spec s "").
Qed.

Lemma reencode_idempotent_witness :
  ∃ s, reencode (Some "$group_0012") = Ok s ∧ s ≠ "" ∧ reencode (Some s) = Ok s.
Proof.
  apply (reencode_idempotent (Some "$group_0012")).
  intros ds H%(inj Some)%(inj (String.append "$group_")) _. subst ds. by vm_compute.
Defined.

(** X3. For a non-empty selector whose group index, if it is a group
    selector, is a safe integer, encoding the decoded descriptor loses
    nothing: the new selector decodes to the same descriptor, and it is
    the selector itself unless that is a group selector (whose leading
    zeros go). *)
Theorem reencode_keeps_descriptor (s : string) :
  s ≠ "" →
  (∀ ds, s = "$group_" +:+ ds → digits ds → Text.decimal_value ds <= MAX_SAFE_INTEGER) →
  ∃ s', reencode (Some s) = Ok s'
        ∧ hogQLToFilterValue (Some s') = hogQLToFilterValue (Some s)
        ∧ (¬ group_token_of s → s' = s).
Proof.
  intros Hne Hsafe.
  destruct (reencode_inv (Some s))
    as [(ds & Hd & [= ->] & ->)|[[[[= ->]|[[= ->]|[=]]] ->]|(? & [= <-] & _ & _ & _ & ->)]];
    try done.
  - eexists. split; [done|].
    assert (0 <= Text.decimal_value ds <= MAX_SAFE_INTEGER) as Hz
      by (split; [by apply decimal_value_nonneg|by apply Hsafe]).
    rewrite (to_number_safe _ Hz).
    destruct (number_to_string_nonneg _ Hz) as [Hd' Hv].
    split; [by rewrite (decode_group _ Hd'), (decode_group _ Hd), Hv|].
    intros []. by exists ds.
  - by exists "person_id".
  - by exists s.
Qed.

Lemma reencode_keeps_descriptor_witness :
  ∃ s', reencode (Some "$group_007") = Ok s'
        ∧ hogQLToFilterValue (Some s') = hogQLToFilterValue (Some "$group_007").
Proof.
  destruct (reencode_keeps_descriptor "$group_007") as (s' & H1 & H2 & _).
  - discriminate.
  - intros ds H%(inj (String.append "$group_")) _. subst ds. by vm_compute.
  - exists s'. split; [exact H1|exact H2].
Defined.

(** ** The wrappers and the store *)

Lemma get_weaken (u o : object) (k : string) (v : jsval) :
  u !! k = Some v → u ⊆ o → get k o = v.
Proof. intros Hk Hsub. unfold get. by rewrite (lookup_weaken _ _ _ _ Hk Hsub). Qed.

(** What a decoded descriptor holds, read as the handlers read it. *)
Lemma descriptor_fields value d :
  hogQLToFilterValue value = Ok d →
  (get "groupIndex" d = VUndefined
   ∨ (∃ n, get "groupIndex" d = VNumber (Int n) ∧ 0 <= n)
   ∨ get "groupIndex" d = VNumber Infinity)
  ∧ (get "aggregationQuery" d = VUndefined ∨ ∃ s, get "aggregationQuery" d = VString s)
  ∧ (get "groupIndex" d = VUndefined ∨ get "aggregationQuery" d = VUndefined)
  ∧ (∀ s, value = Some s → (String.length s <= 315)%nat →
       get "groupIndex" d ≠ VNumber Infinity).
Proof.
  destruct (hogQLToFilterValue_inv value)
    as [(ds & Hd & -> & ->)|[[_ ->]|(_ & _ & ->)]]; intros <-%Ok_inj.
  - rewrite get_singleton_eq, get_singleton_ne by done.
    split.
    { right.
      destruct (to_number_nonneg _ (decimal_value_nonneg _ Hd)) as [(n & -> & Hn)| ->];
        [left|right]; eauto. }
    split; [by left|]. split; [by right|].
    intros s [= <-] Hlen.
    destruct (short_digits_finite ds Hd) as (n & -> & Hn); [|done].
    change (String.length ("$group_" +:+ ds)) with (7 + String.length ds)%nat in Hlen.
    lia.
  - rewrite !get_empty.
    split; [by left|]. split; [by left|]. split; [by left|done].
  - rewrite get_singleton_eq, get_singleton_ne by done.
    split; [by left|]. split; [|split; [by left|done]].
    destruct value; simpl; [right|left]; eauto.
Qed.

Section StoreProperties.

Variables isInsightQueryNode isFunnelsQuery isFunnelsFilter : object → bool.

(** The selector each wrapper shows. *)
Lemma DataExploration_value querySource cn ha :
  isInsightQueryNode querySource = true →
  ∃ p, AggregationSelectDataExploration isInsightQueryNode isFunnelsQuery
         querySource cn ha = Some p
       ∧ value p
         = Some (getHogQLValue
                   (as_number (get "aggregation_group_type_index" querySource))
                   (if isFunnelsQuery querySource
                    then as_string (optional_get "funnel_aggregate_by_hogql"
                                      (get "funnelsFilter" querySource))
                    else None)).
Proof.
  intros Hq. unfold AggregationSelectDataExploration. rewrite Hq. by eexists.
Qed.

Lemma Legacy_value filters cn ha :
  value (AggregationSelect isFunnelsFilter filters cn ha)
  = Some (getHogQLValue
            (as_number (get "aggregation_group_type_index" filters))
            (if isFunnelsFilter filters
             then as_string (get "funnel_aggregate_by_hogql" filters)
             else None)).
Proof. done. Qed.

End StoreProperties.



(** X5. Outside the funnel case, a wrapper rendered on a store state
    that holds what its handler dispatched shows "person_id" after any
    choice that is not a group selector, a custom expression included;
    after a group selector it shows the selector of the decoded index. *)
Theorem non_funnel_change_is_shown
    (isInsightQueryNode isFunnelsQuery isFunnelsFilter : object → bool)
    (querySource filters : object) (cn : option string) (ha : option bool)
    (chosen : option string) :
  isInsightQueryNode querySource = true →
  isFunnelsQuery querySource = false →
  isFunnelsFilter filters = false →
  ∃ p d shown u u',
    AggregationSelectDataExploration isInsightQueryNode isFunnelsQuery querySource cn ha
    = Some p
    ∧ hogQLToFilterValue chosen = Ok d
    ∧ shown = getHogQLValue (as_number (get "groupIndex" d)) None
    ∧ ((∀ s, chosen = Some s → ¬ group_token_of s) → shown = "person_id")
    ∧ onChange p chosen = Ok [updateQuerySource u]
    ∧ onChange (AggregationSelect isFunnelsFilter filters cn ha) chosen = Ok [setFilters u']
    ∧ (∀ querySource' cn' ha',
         u ⊆ querySource' →
         isInsightQueryNode querySource' = true → isFunnelsQuery querySource' = false →
         ∃ p', AggregationSelectDataExploration isInsightQueryNode isFunnelsQuery
                 querySource' cn' ha' = Some p'
               ∧ value p' = Some shown)
    ∧ (∀ filters' cn' ha',
         u' ⊆ filters' → isFunnelsFilter filters' = false →
         value (AggregationSelect isFunnelsFilter filters' cn' ha') = Some shown).
Proof.
  intros Hq Hfq Hff.
  destruct (DataExploration_onChange isInsightQueryNode isFunnelsQuery querySource cn ha Hq)
    as (p & Hp & Hchange).
  destruct (hogQLToFilterValue_Ok chosen) as (d & Hd).
  exists p, d. eexists. eexists. eexists.
  split; [done|]. split; [done|]. split; [done|].
  split.
  { intros Hng.
    destruct (hogQLToFilterValue_inv chosen)
      as [(ds & Hds & -> & _)|[[_ Hd']|(_ & _ & Hd')]].
    - destruct (Hng _ eq_refl). by exists ds.
    - rewrite Hd' in Hd. apply Ok_inj in Hd as <-. by rewrite get_empty.
    - rewrite Hd' in Hd. apply Ok_inj in Hd as <-. by rewrite get_singleton_ne. }
  split; [by rewrite (Hchange _ _ Hd), Hfq|].
  split; [by rewrite (Legacy_onChange _ _ _ _ _ _ Hd), Hff|].
  split.
  - intros querySource' cn' ha' Hsub Hq' Hfq'.
    destruct (DataExploration_value isInsightQueryNode isFunnelsQuery querySource' cn' ha' Hq')
      as (p' & Hp' & Hv).
    exists p'. split; [done|]. rewrite Hv, Hfq'.
    by rewrite (get_weaken _ _ "aggregation_group_type_index" _
                  (lookup_singleton_eq _ _) Hsub).
  - intros filters' cn' ha' Hsub Hff'.
    rewrite Legacy_value, Hff'.
    by rewrite (get_weaken _ _ "aggregation_group_type_index" _
                  (lookup_insert_eq _ _ _) Hsub).
Qed.

Lemma non_funnel_change_is_shown_witness :
  ∃ u', onChange (AggregationSelect insight_is_funnels stale_filters None None)
          (Some "distinct_id")
        = Ok [setFilters u']
        ∧ value (AggregationSelect insight_is_funnels u' None None) = Some "person_id".
Proof.
  destruct (non_funnel_change_is_shown (λ _, true) (kind_is "FunnelsQuery")
              insight_is_funnels trends_query stale_filters None None
              (Some "distinct_id"))
    as (p & d & shown & u & u' & _ & Hd & -> & _ & _ & Hchange & _ & Hshown);
    [reflexivity..|].
  exists u'. split; [exact Hchange|].
  injection Hchange as <-. injection Hd as <-.
  apply Hshown; reflexivity.
Defined.

(** X6. In the funnel case a change touches nothing else: the query
    update has the two properties [aggregation_group_type_index] and
    [funnelsFilter] only, its [funnelsFilter] keeps every other property
    of the current one (and has none when there is no current one), and
    the dispatched filters keep every property of the current filters but
    the two that are written. *)
Theorem funnel_change_frame
    (isInsightQueryNode isFunnelsQuery isFunnelsFilter : object → bool)
    (querySource filters : object) (cn : option string) (ha : option bool)
    (chosen : option string) :
  isInsightQueryNode querySource = true →
  isFunnelsQuery querySource = true →
  isFunnelsFilter filters = true →
  ∃ p u funnelsFilter u',
    AggregationSelectDataExploration isInsightQueryNode isFunnelsQuery querySource cn ha
    = Some p
    ∧ onChange p chosen = Ok [updateQuerySource u]
    ∧ onChange (AggregationSelect isFunnelsFilter filters cn ha) chosen = Ok [setFilters u']
    ∧ (∀ k, is_Some (u !! k) ↔ k = "aggregation_group_type_index" ∨ k = "funnelsFilter")
    ∧ u !! "funnelsFilter" = Some (VObject funnelsFilter)
    ∧ (∀ k, k ≠ "funnel_aggregate_by_hogql" →
         funnelsFilter !! k = spread (get "funnelsFilter" querySource) !! k)
    ∧ (∀ k, k ≠ "aggregation_group_type_index" → k ≠ "funnel_aggregate_by_hogql" →
         u' !! k = filters !! k).
Proof.
  intros Hq Hfq Hff.
  destruct (DataExploration_onChange isInsightQueryNode isFunnelsQuery querySource cn ha Hq)
    as (p & Hp & Hchange).
  destruct (hogQLToFilterValue_Ok chosen) as (d & Hd).
  exists p. eexists. eexists. eexists.
  split; [done|].
  split; [by rewrite (Hchange _ _ Hd), Hfq|].
  split; [by rewrite (Legacy_onChange _ _ _ _ _ _ Hd), Hff|].
  split.
  { intros k. rewrite lookup_insert_is_Some, lookup_singleton_is_Some.
    split; [intros [ <- | [_ <-] ]; eauto|].
    intros [ -> | -> ]; [right|left]; done. }
  split; [apply lookup_insert_eq|].
  split.
  - intros k Hk. by apply lookup_insert_ne.
  - intros k Hk1 Hk2. by rewrite !lookup_insert_ne.
Qed.

Lemma funnel_change_frame_witness :
  ∃ u funnelsFilter,
    (AggregationSelectDataExploration (λ _, true) (kind_is "FunnelsQuery")
       funnels_query None None
     ≫= λ p, Some (onChange p (Some "distinct_id")))
    = Some (Ok [updateQuerySource u])
    ∧ u !! "funnelsFilter" = Some (VObject funnelsFilter)
    ∧ funnelsFilter !! "funnel_viz_type" = Some (VString "steps").
Proof.
  destruct (funnel_change_frame (λ _, true) (kind_is "FunnelsQuery") insight_is_funnels
              funnels_query funnel_filters None None (Some "distinct_id"))
    as (p & u & ff & u' & Hp & Hchange & _ & _ & Hff & Hkeep & _); [reflexivity..|].
  exists u, ff. split; [|split; [exact Hff|]].
  - injection Hp as <-. exact (f_equal Some Hchange).
  - rewrite (Hkeep "funnel_viz_type") by discriminate. reflexivity.
Defined.

(** X7. Every change runs without an exception and dispatches one
    update. The group index it stores is undefined, a non-negative
    integer or, only for a chosen value of more than 315 characters,
    [Infinity]; it is never [NaN]. The aggregation query it stores in the
    funnel case is undefined or a string, and the two are never both
    defined. *)
Theorem dispatched_values
    (isInsightQueryNode isFunnelsQuery isFunnelsFilter : object → bool)
    (querySource filters : object) (cn : option string) (ha : option bool)
    (chosen : option string) :
  isInsightQueryNode querySource = true →
  ∃ p u u' groupIndex aggregationQuery,
    AggregationSelectDataExploration isInsightQueryNode isFunnelsQuery querySource cn ha
    = Some p
    ∧ onChange p chosen = Ok [updateQuerySource u]
    ∧ onChange (AggregationSelect isFunnelsFilter filters cn ha) chosen = Ok [setFilters u']
    ∧ u !! "aggregation_group_type_index" = Some groupIndex
    ∧ u' !! "aggregation_group_type_index" = Some groupIndex
    ∧ (isFunnelsQuery querySource = true →
         optional_get "funnel_aggregate_by_hogql" (get "funnelsFilter" u) = aggregationQuery)
    ∧ (isFunnelsFilter filters = true →
         u' !! "funnel_aggregate_by_hogql" = Some aggregationQuery)
    ∧ (groupIndex = VUndefined
       ∨ (∃ n, groupIndex = VNumber (Int n) ∧ 0 <= n)
       ∨ groupIndex = VNumber Infinity)
    ∧ (∀ s, chosen = Some s → (String.length s <= 315)%nat →
         groupIndex ≠ VNumber Infinity)
    ∧ (aggregationQuery = VUndefined ∨ ∃ s, aggregationQuery = VString s)
    ∧ (groupIndex = VUndefined ∨ aggregationQuery = VUndefined).
Proof.
  intros Hq.
  destruct (DataExploration_onChange isInsightQueryNode isFunnelsQuery querySource cn ha Hq)
    as (p & Hp & Hchange).
  destruct (hogQLToFilterValue_Ok chosen) as (d & Hd).
  destruct (descriptor_fields _ _ Hd) as (Hgi & Haq & Hone & Hfinite).
  exists p. eexists. eexists.
  exists (get "groupIndex" d), (get "aggregationQuery" d).
  split; [done|].
  split; [by apply Hchange|].
  split; [by apply Legacy_onChange|].
  split.
  { destruct (isFunnelsQuery querySource).
    - by rewrite lookup_insert_ne, lookup_singleton_eq.
    - apply lookup_singleton_eq. }
  split.
  { destruct (isFunnelsFilter filters).
    - by rewrite lookup_insert_ne, lookup_insert_eq.
    - apply lookup_insert_eq. }
  split.
  { intros ->. rewrite get_insert_eq. cbn [optional_get]. apply get_insert_eq. }
  split; [intros ->; apply lookup_insert_eq|done].
Qed.

Lemma dispatched_values_witness :
  ∃ u' groupIndex,
    onChange (AggregationSelect insight_is_funnels funnel_filters None None)
      (Some "$group_2")
    = Ok [setFilters u']
    ∧ u' !! "aggregation_group_type_index" = Some groupIndex
    ∧ u' !! "funnel_aggregate_by_hogql" = Some VUndefined.
Proof.
  destruct (dispatched_values (λ _, true) (kind_is "FunnelsQuery") insight_is_funnels
              funnels_query funnel_filters None None (Some "$group_2"))
    as (p & u & u' & gi & aq & _ & _ & Hchange & _ & Hgi & _ & Haq & _ & _ & _);
    [reflexivity|].
  exists u', gi. split; [exact Hchange|]. split; [exact Hgi|].
  injection Hchange as <-. reflexivity.
Defined.

(** ** The option list *)

Lemma fixed_values_snoc_leaf items l :
  fixed_values (items ++ [LemonSelect.Leaf l])
  = fixed_values items ++ [LemonSelect.leaf_value l].
Proof. unfold fixed_values. by rewrite bind_app. Qed.

Lemma fixed_values_snoc_group items label leaves :
  fixed_values (items ++ [LemonSelect.Group label leaves]) = fixed_values items.
Proof. unfold fixed_values. rewrite bind_app. simpl. by rewrite app_nil_r. Qed.

Section OptionListProperties.

Variables (model : GroupsModel) (access : GroupsAccess).

(** The [forEach] adds one plain option per group type, in order, and
    leaves the footer as it is. *)
Lemma add_group_types_sections st l sec :
  optionSections st = [sec] →
  ∃ sec', optionSections (foldl (add_group_type model) st l) = [sec']
          ∧ fixed_values (LemonSelect.options sec')
            = fixed_values (LemonSelect.options sec) ++ (group_token <$> l)
          ∧ length (LemonSelect.options sec')
            = (length (LemonSelect.options sec) + length l)%nat
          ∧ LemonSelect.footer sec' = LemonSelect.footer sec.
Proof.
  revert st sec; induction l as [|groupType l IH]; intros st sec Hsec; simpl.
  - exists sec. by rewrite app_nil_r, Nat.add_0_r.
  - edestruct (IH (add_group_type model st groupType)) as (sec' & Hsec' & Hv & Hl & Hf).
    { cbn [add_group_type optionSections]. by rewrite Hsec. }
    exists sec'. split; [done|].
    cbn [LemonSelect.options LemonSelect.footer] in *.
    split; [by rewrite Hv, fixed_values_snoc_leaf, <- app_assoc|].
    split; [|done]. rewrite Hl, length_app. simpl. lia.
Qed.

(** The section just before the custom option is added. *)
Lemma before_custom_section ha :
  ∃ sec,
    optionSections (add_sessions ha (add_groups model access initial_locals)) = [sec]
    ∧ fixed_values (LemonSelect.options sec)
      = baseValues (add_sessions ha (add_groups model access initial_locals))
    ∧ length (LemonSelect.options sec) = length (fixed_values (LemonSelect.options sec))
    ∧ baseValues (add_sessions ha (add_groups model access initial_locals))
      = "person_id"
        :: (if needsUpgradeForGroups access || canStartUsingGroups access
            then [] else group_token <$> groupTypes model)
        ++ (if default false ha then ["properties.$session_id"] else [])
    ∧ LemonSelect.footer sec
      = (if needsUpgradeForGroups access || canStartUsingGroups access
         then Some {| LemonSelect.needsUpgrade := needsUpgradeForGroups access |}
         else None).
Proof.
  unfold add_sessions, add_groups.
  destruct (needsUpgradeForGroups access || canStartUsingGroups access).
  - destruct (default false ha); eexists; (split; [done|]); done.
  - destruct (add_group_types_sections initial_locals (groupTypes model) _ eq_refl)
      as (sec & Hsec & Hv & Hl & Hf).
    cbn [initial_locals LemonSelect.options LemonSelect.footer] in Hv, Hl, Hf.
    destruct (default false ha).
    + eexists. cbn [optionSections baseValues]. rewrite Hsec. split; [done|].
      cbn [LemonSelect.options LemonSelect.footer].
      rewrite fixed_values_snoc_leaf, Hv, add_group_types_baseValues.
      split; [done|]. split; [|done].
      rewrite !length_app, Hl, length_fmap. simpl. lia.
    + exists sec. split; [done|].
      rewrite Hv, add_group_types_baseValues, app_nil_r.
      split; [done|]. split; [|done].
      rewrite Hl. simpl. by rewrite length_fmap.
Qed.

(** No fixed value is the empty string. *)
Lemma known_value_not_empty ha s : known_value model access ha s → s ≠ "".
Proof. intros [->|[(_ & _ & gt & _ & ->)|[_ ->]]]; done. Qed.

End OptionListProperties.

(** X8. The component offers, in this order, "person_id", the selector
    of each group type unless groups need an upgrade or can be started
    (then none, and the section gets the introduction footer), and
    "properties.$session_id" when [hogqlAvailable] is set, followed by
    the custom expression option; the values of the plain options are
    the [baseValues] the custom option is compared with. *)
Theorem offered_options {E : Type} (model : GroupsModel) (access : GroupsAccess)
    (p : AggregationSelectComponentProps E) :
  ∃ sec plain,
    LemonSelect.select_options (AggregationSelectComponent model access p) = [sec]
    ∧ LemonSelect.options sec
      = plain ++ [custom_option (fixed_values plain) (value p)]
    ∧ fixed_values plain
      = "person_id"
        :: (if needsUpgradeForGroups access || canStartUsingGroups access
            then [] else group_token <$> groupTypes model)
        ++ (if default false (hogqlAvailable p) then ["properties.$session_id"] else [])
    ∧ length plain = length (fixed_values plain)
    ∧ LemonSelect.footer sec
      = (if needsUpgradeForGroups access || canStartUsingGroups access
         then Some {| LemonSelect.needsUpgrade := needsUpgradeForGroups access |}
         else None).
Proof.
  destruct (before_custom_section model access (hogqlAvailable p))
    as (sec & Hsec & Hv & Hl & Hbase & Hfooter).
  cbn [AggregationSelectComponent LemonSelect.select_options].
  unfold final_locals, add_custom. cbn [optionSections]. rewrite Hsec.
  eexists. exists (LemonSelect.options sec).
  split; [done|]. cbn [LemonSelect.options LemonSelect.footer].
  split; [by rewrite Hv|]. split; [by rewrite Hv|]. done.
Qed.

Lemma custom_value_fresh (base : list string) (current : option string) :
  "" ∉ base → custom_value base current ∉ base.
Proof.
  intros Hbase. destruct current as [v|]; simpl; [|done].
  destruct (String.eqb_spec v ""); [done|]. simpl.
  by case_bool_decide.
Qed.

(** X9. The value of the custom expression option is never the value of
    one of the plain options before it. *)
Theorem custom_option_distinct {E : Type} (model : GroupsModel) (access : GroupsAccess)
    (p : AggregationSelectComponentProps E) :
  ∃ sec plain custom,
    LemonSelect.select_options (AggregationSelectComponent model access p) = [sec]
    ∧ LemonSelect.options sec
      = plain ++ [LemonSelect.Group "Custom HogQL expression" [custom]]
    ∧ LemonSelect.leaf_value custom ∉ fixed_values plain.
Proof.
  destruct (before_custom_section model access (hogqlAvailable p))
    as (sec & Hsec & Hv & _).
  cbn [AggregationSelectComponent LemonSelect.select_options].
  unfold final_locals, add_custom. cbn [optionSections]. rewrite Hsec.
  eexists. exists (LemonSelect.options sec). eexists.
  split; [done|]. split; [done|].
  cbn [LemonSelect.leaf_value]. rewrite Hv.
  apply custom_value_fresh. intros Hin.
  apply baseValues_known in Hin. by apply known_value_not_empty in Hin.
Qed.

(** X10. Choosing the option of an offered group type whose index is a
    non-negative safe integer stores that index: the option is in the
    list, and on its value the select's handler dispatches, through
    either wrapper, one update whose [aggregation_group_type_index] is
    the index of the group type. *)
Theorem choosing_group_option
    (model : GroupsModel) (access : GroupsAccess)
    (isInsightQueryNode isFunnelsQuery isFunnelsFilter : object → bool)
    (querySource filters : object) (cn : option string) (ha : option bool)
    (groupType : GroupType) (z : Z) :
  needsUpgradeForGroups access || canStartUsingGroups access = false →
  groupType ∈ groupTypes model →
  group_type_index groupType = Int z →
  0 <= z <= MAX_SAFE_INTEGER →
  isInsightQueryNode querySource = true →
  ∃ p sec u u',
    AggregationSelectDataExploration isInsightQueryNode isFunnelsQuery querySource cn ha
    = Some p
    ∧ LemonSelect.select_options
        (AggregationSelectComponent model access
           (AggregationSelect isFunnelsFilter filters cn ha)) = [sec]
    ∧ group_token groupType ∈ fixed_values (LemonSelect.options sec)
    ∧ LemonSelect.onChange (AggregationSelectComponent model access p)
        (LemonSelect.Chosen (group_token groupType))
      = Ok [updateQuerySource u]
    ∧ LemonSelect.onChange
        (AggregationSelectComponent model access
           (AggregationSelect isFunnelsFilter filters cn ha))
        (LemonSelect.Chosen (group_token groupType))
      = Ok [setFilters u']
    ∧ u !! "aggregation_group_type_index" = Some (VNumber (Int z))
    ∧ u' !! "aggregation_group_type_index" = Some (VNumber (Int z)).
Proof.
  intros Hshown Hin Hidx Hz Hq.
  destruct (DataExploration_onChange isInsightQueryNode isFunnelsQuery querySource cn ha Hq)
    as (p & Hp & Hchange).
  destruct (number_to_string_nonneg z Hz) as [Hd Hv].
  assert (hogQLToFilterValue (Some (group_token groupType))
          = Ok {[ "groupIndex" := VNumber (Int z) ]}) as Hdec.
  { unfold group_token. by rewrite Hidx, (decode_group _ Hd), Hv, to_number_safe. }
  destruct (before_custom_section model access ha) as (sec & Hsec & Hvals & _ & Hbase & _).
  exists p. eexists. eexists. eexists.
  split; [done|].
  split.
  { cbn [AggregationSelectComponent LemonSelect.select_options].
    unfold final_locals, add_custom. cbn [optionSections hogqlAvailable AggregationSelect].
    by rewrite Hsec. }
  split.
  { cbn [LemonSelect.options]. unfold custom_option.
    rewrite fixed_values_snoc_group, Hvals, Hbase, Hshown.
    apply elem_of_cons. right. apply elem_of_app. left.
    by apply list_elem_of_fmap_2. }
  cbn [AggregationSelectComponent LemonSelect.onChange].
  split; [by apply Hchange|].
  split; [by apply Legacy_onChange|].
  rewrite get_singleton_eq.
  split.
  - destruct (isFunnelsQuery querySource).
    + by rewrite lookup_insert_ne, lookup_singleton_eq.
    + apply lookup_singleton_eq.
  - destruct (isFunnelsFilter filters).
    + by rewrite lookup_insert_ne, lookup_insert_eq.
    + apply lookup_insert_eq.
Qed.

Lemma choosing_group_option_witness :
  ∃ u',
    LemonSelect.onChange
      (AggregationSelectComponent
         {| groupTypes := [{| group_type_index := Int 0 |}; {| group_type_index := Int 1 |}];
            aggregationLabel :=
              λ _, {| singular := "organization"; plural := "organizations" |} |}
         {| needsUpgradeForGroups := false; canStartUsingGroups := false |}
         (AggregationSelect insight_is_funnels funnel_filters None None))
      (LemonSelect.Chosen "$group_1")
    = Ok [setFilters u']
    ∧ u' !! "aggregation_group_type_index" = Some (VNumber (Int 1)).
Proof.
  destruct (choosing_group_option
              {| groupTypes := [{| group_type_index := Int 0 |};
                                {| group_type_index := Int 1 |}];
                 aggregationLabel :=
                   λ _, {| singular := "organization"; plural := "organizations" |} |}
              {| needsUpgradeForGroups := false; canStartUsingGroups := false |}
              (λ _, true) (kind_is "FunnelsQuery") insight_is_funnels
              funnels_query funnel_filters None None {| group_type_index := Int 1 |} 1)
    as (p & sec & u & u' & _ & _ & _ & _ & Hchange & _ & Hidx).
  - reflexivity.
  - apply elem_of_cons. right. apply list_elem_of_singleton. reflexivity.
  - reflexivity.
  - unfold MAX_SAFE_INTEGER. lia.
  - reflexivity.
  - exists u'. split; [exact Hchange|exact Hidx].
Defined.

(** For a current value that is not empty, the custom option is blank
    when the value is one of the plain options and holds the value
    otherwise. *)
Lemma component_active_option {E : Type} (model : GroupsModel) (access : GroupsAccess)
    (p : AggregationSelectComponentProps E) (v : string) :
  value p = Some v → v ≠ "" →
  ∃ sec plain custom,
    LemonSelect.select_options (AggregationSelectComponent model access p) = [sec]
    ∧ LemonSelect.options sec
      = plain ++ [LemonSelect.Group "Custom HogQL expression" [custom]]
    ∧ ((v ∈ fixed_values plain ∧ LemonSelect.leaf_value custom = "")
       ∨ ((v ∉ fixed_values plain) ∧ LemonSelect.leaf_value custom = v)).
Proof.
  intros Hvalue Hne.
  destruct (before_custom_section model access (hogqlAvailable p))
    as (sec & Hsec & Hv & _).
  cbn [AggregationSelectComponent LemonSelect.select_options].
  unfold final_locals, add_custom. cbn [optionSections]. rewrite Hsec, Hvalue.
  eexists. exists (LemonSelect.options sec). eexists.
  split; [done|]. split; [done|].
  cbn [LemonSelect.leaf_value custom_value]. rewrite Hv.
  destruct (String.eqb_spec v ""); [done|]. simpl.
  case_bool_decide; [by left|by right].
Qed.

(** X11. The selector a wrapper passes to the component is never empty,
    and the custom option carries it exactly when no plain option does:
    either it is the value of a plain option and the custom option is
    blank, or it is the value of no plain option and the custom option
    holds it. *)
Theorem wrapper_active_option
    (model : GroupsModel) (access : GroupsAccess)
    (isInsightQueryNode isFunnelsQuery isFunnelsFilter : object → bool)
    (querySource filters : object) (cn : option string) (ha : option bool) :
  isInsightQueryNode querySource = true →
  ∃ p,
    AggregationSelectDataExploration isInsightQueryNode isFunnelsQuery querySource cn ha
    = Some p
    ∧ ∀ props, props = p ∨ props = AggregationSelect isFunnelsFilter filters cn ha →
        ∃ v sec plain custom,
          LemonSelect.value (AggregationSelectComponent model access props) = Some v
          ∧ v ≠ ""
          ∧ LemonSelect.select_options (AggregationSelectComponent model access props)
            = [sec]
          ∧ LemonSelect.options sec
            = plain ++ [LemonSelect.Group "Custom HogQL expression" [custom]]
          ∧ ((v ∈ fixed_values plain ∧ LemonSelect.leaf_value custom = "")
             ∨ ((v ∉ fixed_values plain) ∧ LemonSelect.leaf_value custom = v))
          ∧ (LemonSelect.leaf_value custom = v ↔ v ∉ fixed_values plain).
Proof.
  intros Hq.
  destruct (DataExploration_value isInsightQueryNode isFunnelsQuery querySource cn ha Hq)
    as (p & Hp & Hv).
  exists p. split; [done|].
  intros props Hprops.
  assert (∃ v, value props = Some v ∧ v ≠ "") as (v & Hvalue & Hne).
  { destruct Hprops as [->| ->].
    - eexists. split; [exact Hv|apply getHogQLValue_not_empty].
    - eexists. split; [apply Legacy_value|apply getHogQLValue_not_empty]. }
  destruct (component_active_option model access props v Hvalue Hne)
    as (sec & plain & custom & Hsec & Hopts & Hactive).
  exists v, sec, plain, custom.
  split; [done|]. split; [done|]. split; [done|]. split; [done|]. split; [done|].
  destruct Hactive as [[Hin Hblank]|[Hout Hcustom]].
  - rewrite Hblank. split; [by intros <-|done].
  - done.
Qed.

Lemma wrapper_active_option_witness :
  ∃ sec plain custom,
    LemonSelect.select_options
      (AggregationSelectComponent
         {| groupTypes := [{| group_type_index := Int 0 |}];
            aggregationLabel :=
              λ _, {| singular := "organization"; plural := "organizations" |} |}
         {| needsUpgradeForGroups := false; canStartUsingGroups := false |}
         (AggregationSelect insight_is_funnels stale_filters None None))
    = [sec]
    ∧ LemonSelect.options sec
      = plain ++ [LemonSelect.Group "Custom HogQL expression" [custom]]
    ∧ (("person_id" ∈ fixed_values plain ∧ LemonSelect.leaf_value custom = "")
       ∨ (("person_id" ∉ fixed_values plain)
          ∧ LemonSelect.leaf_value custom = "person_id")).
Proof.
  destruct (wrapper_active_option
              {| groupTypes := [{| group_type_index := Int 0 |}];
                 aggregationLabel :=
                   λ _, {| singular := "organization"; plural := "organizations" |} |}
              {| needsUpgradeForGroups := false; canStartUsingGroups := false |}
              (λ _, true) (kind_is "FunnelsQuery") insight_is_funnels
              trends_query stale_filters None None)
    as (p & _ & Hboth); [reflexivity|].
  destruct (Hboth (AggregationSelect insight_is_funnels stale_filters None None))
    as (v & sec & plain & custom & Hv & _ & Hsec & Hopts & Hactive & _); [by right|].
  exists sec, plain, custom. split; [exact Hsec|]. split; [exact Hopts|].
  injection Hv as <-. exact Hactive.
Defined.
